(** * img-optimizer: the disk cache and the fetch / transform / serve handler

    A shallow embedding of [main.go] (the HTTP handler, [writeWebp]) and of
    the cache store ([store.get], [store.set], the [sync.Map] of per-path
    [sync.RWMutex]es), together with the parts of the Go standard library
    the handler calls.

    Go strings are byte sequences; they are [string]s here (one [ascii] per
    byte).  Mutable state (file system, lock table, response writer, the log
    and the calls made to the outside) is threaded explicitly in a [World]
    record. *)

From Stdlib Require Import ZArith Ascii String List Lia Bool.
From stdpp Require Import base option list gmap strings.

Local Open Scope Z_scope.

(* ===================================================================== *)
(** ** crypto/sha1 and encoding/hex *)
(* ===================================================================== *)

Module Sha1.

(** 32-bit words are [Z]s in [0, 2^32); every operation wraps. *)
Definition w32 (x : Z) : Z := x mod 2 ^ 32.
Definition add32 (x y : Z) : Z := w32 (x + y).
Definition rotl (n x : Z) : Z :=
  Z.lor (w32 (Z.shiftl x n)) (Z.shiftr x (32 - n)).
Definition not32 (x : Z) : Z := Z.lxor x (2 ^ 32 - 1).

Definition byteZ (c : ascii) : Z := Z.of_N (N_of_ascii c).

Fixpoint bytes_of (s : string) : list Z :=
  match s with
  | EmptyString => []
  | String c s' => byteZ c :: bytes_of s'
  end.

(** Big-endian encoding of [x] on [n] bytes. *)
Fixpoint be_bytes (n : nat) (x : Z) : list Z :=
  match n with
  | O => []
  | S n' => Z.shiftr x (8 * Z.of_nat n') mod 256 :: be_bytes n' x
  end.

Definition be_word (bs : list Z) : Z :=
  fold_left (fun acc b => acc * 256 + b) bs 0.

(** Message padding: 0x80, zeros up to 56 mod 64, then the bit length on
    eight bytes. *)
Definition pad (msg : list Z) : list Z :=
  let len := Z.of_nat (length msg) in
  let zeros := Z.to_nat ((55 - len) mod 64) in
  msg ++ 128 :: repeat 0 zeros ++ be_bytes 8 ((8 * len) mod 2 ^ 64).

Fixpoint chunks (fuel : nat) (k : nat) (l : list Z) : list (list Z) :=
  match fuel with
  | O => []
  | S fuel' =>
      match l with
      | [] => []
      | _ => firstn k l :: chunks fuel' k (skipn k l)
      end
  end.

Definition words_of_block (blk : list Z) : list Z :=
  map be_word (chunks 16 4 blk).

(** The message schedule, kept newest-first: [extend] adds w[t] computed
    from w[t-3], w[t-8], w[t-14] and w[t-16]. *)
Definition extend (rev_w : list Z) : list Z :=
  let g i := nth i rev_w 0 in
  rotl 1 (Z.lxor (Z.lxor (g 2%nat) (g 7%nat)) (Z.lxor (g 13%nat) (g 15%nat)))
    :: rev_w.

Definition schedule (blk : list Z) : list Z :=
  rev (Nat.iter 64 extend (rev (words_of_block blk))).

Record regs := Regs { ra : Z; rb : Z; rc : Z; rd : Z; re : Z }.

Definition round (t : nat) (wt : Z) (r : regs) : regs :=
  let '(Regs a b c d e) := r in
  let '(f, k) :=
    if (t <? 20)%nat then
      (Z.lor (Z.land b c) (Z.land (not32 b) d), 0x5A827999)
    else if (t <? 40)%nat then
      (Z.lxor (Z.lxor b c) d, 0x6ED9EBA1)
    else if (t <? 60)%nat then
      (Z.lor (Z.lor (Z.land b c) (Z.land b d)) (Z.land c d), 0x8F1BBCDC)
    else
      (Z.lxor (Z.lxor b c) d, 0xCA62C1D6) in
  Regs (add32 (add32 (add32 (add32 (rotl 5 a) f) e) k) wt)
       a (rotl 30 b) c d.

Fixpoint rounds (t : nat) (ws : list Z) (r : regs) : regs :=
  match ws with
  | [] => r
  | wt :: ws' => rounds (S t) ws' (round t wt r)
  end.

Definition block (h : regs) (blk : list Z) : regs :=
  let r := rounds 0 (schedule blk) h in
  Regs (add32 (ra h) (ra r)) (add32 (rb h) (rb r)) (add32 (rc h) (rc r))
       (add32 (rd h) (rd r)) (add32 (re h) (re r)).

Definition init : regs :=
  Regs 0x67452301 0xEFCDAB89 0x98BADCFE 0x10325476 0xC3D2E1F0.

Definition digest (msg : list Z) : list Z :=
  let p := pad msg in
  let h := fold_left block (chunks (length p) 64 p) init in
  be_bytes 4 (ra h) ++ be_bytes 4 (rb h) ++ be_bytes 4 (rc h)
    ++ be_bytes 4 (rd h) ++ be_bytes 4 (re h).

Definition to_ascii (b : Z) : ascii := ascii_of_N (Z.to_N b).

(** [sha1.Sum([]byte(s))]: the twenty digest bytes. *)
Definition Sum (s : string) : list ascii := map to_ascii (digest (bytes_of s)).

End Sha1.

Module Hex.

Definition hextable : string := "0123456789abcdef".

Definition digit (n : N) : ascii :=
  match String.get (N.to_nat n) hextable with
  | Some c => c
  | None => "0"%char
  end.

Definition encode_byte (c : ascii) : string :=
  let n := N_of_ascii c in
  String (digit (N.shiftr n 4)) (String (digit (N.land n 15)) EmptyString).

(** [hex.EncodeToString]: two lowercase digits per byte. *)
Fixpoint EncodeToString (src : list ascii) : string :=
  match src with
  | [] => EmptyString
  | c :: rest => encode_byte c +:+ EncodeToString rest
  end.

Definition undigit (c : ascii) : N :=
  let n := N_of_ascii c in
  if (n <? 58)%N then (n - 48)%N else (n - 87)%N.

Fixpoint decode (s : string) : list ascii :=
  match s with
  | String hi (String lo rest) =>
      ascii_of_N (undigit hi * 16 + undigit lo) :: decode rest
  | _ => []
  end.

End Hex.

(* ===================================================================== *)
(** ** strings, net/url, path/filepath, net/textproto *)
(* ===================================================================== *)

Definition eqs (a b : string) : bool := bool_decide (a = b).
Definition eqc (a b : ascii) : bool := bool_decide (a = b).

Module Strings.

Fixpoint Contains (s : string) (c : ascii) : bool :=
  match s with
  | EmptyString => false
  | String x s' => eqc x c || Contains s' c
  end.

(** [strings.Split(s, sep)] for a one-byte separator. *)
Fixpoint Split (sep : ascii) (s : string) : list string :=
  match s with
  | EmptyString => [EmptyString]
  | String c s' =>
      if eqc c sep then EmptyString :: Split sep s'
      else match Split sep s' with
           | h :: t => String c h :: t
           | [] => [String c EmptyString]
           end
  end.

(** [strings.Cut(s, sep)]: the text before and after the first [sep]
    (everything and nothing when there is none). *)
Fixpoint Cut (sep : ascii) (s : string) : string * string :=
  match s with
  | EmptyString => (EmptyString, EmptyString)
  | String c s' =>
      if eqc c sep then (EmptyString, s')
      else let '(a, b) := Cut sep s' in (String c a, b)
  end.

Fixpoint Join (sep : string) (l : list string) : string :=
  match l with
  | [] => EmptyString
  | [x] => x
  | x :: rest => x +:+ sep +:+ Join sep rest
  end.

End Strings.

Module Url.

Definition between (lo hi c : ascii) : bool :=
  let n := N_of_ascii c in
  (N_of_ascii lo <=? n)%N && (n <=? N_of_ascii hi)%N.

Definition ishex (c : ascii) : bool :=
  between "0" "9" c || between "a" "f" c || between "A" "F" c.

Definition unhex (c : ascii) : N :=
  let n := N_of_ascii c in
  if between "0" "9" c then (n - 48)%N
  else if between "a" "f" c then (n - 97 + 10)%N
  else if between "A" "F" c then (n - 65 + 10)%N
  else 0%N.

(** [url.QueryUnescape]: "%XY" is the byte XY, "+" is a space; [None] is
    the [EscapeError] of a "%" not followed by two hex digits. *)
Fixpoint QueryUnescape (s : string) : option string :=
  match s with
  | EmptyString => Some EmptyString
  | String "%" (String h (String l rest)) =>
      if ishex h && ishex l then
        String (ascii_of_N (unhex h * 16 + unhex l)) <$> QueryUnescape rest
      else None
  | String "%" _ => None
  | String "+" rest => String " " <$> QueryUnescape rest
  | String c rest => String c <$> QueryUnescape rest
  end.

(** [url.Values]: each key with its values in order of appearance. *)
Definition Values := gmap string (list string).

(** One turn of the loop of [url.parseQuery] on the pair [kv]: a pair with
    a semicolon, an empty pair or a pair that does not unescape is
    dropped. *)
Definition parsePair (m : Values) (kv : string) : Values :=
  if Strings.Contains kv ";" then m
  else if eqs kv "" then m
  else
    let '(k, v) := Strings.Cut "=" kv in
    match QueryUnescape k, QueryUnescape v with
    | Some k', Some v' => <[k' := default [] (m !! k') ++ [v']]> m
    | _, _ => m
    end.

(** [u.Query()], that is [url.ParseQuery(u.RawQuery)] with its error
    dropped: the pairs between "&" are taken from left to right. *)
Definition ParseQuery (query : string) : Values :=
  fold_left parsePair (Strings.Split "&" query) ∅.

(** [Values.Get]: the first value of the key, or the empty string. *)
Definition Get (v : Values) (key : string) : string :=
  match v !! key with
  | Some (x :: _) => x
  | _ => EmptyString
  end.

Inductive encoding := encodePath | encodeHost.

Definition alnum (c : ascii) : bool :=
  between "a" "z" c || between "A" "Z" c || between "0" "9" c.

Definition one_of (s : string) (c : ascii) : bool := Strings.Contains s c.

(** [url.shouldEscape] for the two modes [URL.String] needs here. *)
Definition shouldEscape (c : ascii) (mode : encoding) : bool :=
  if alnum c then false
  else if match mode with
          | encodeHost =>
              one_of "!$&'()*+,;=:[]<>" c || eqc c (ascii_of_nat 34)
          | encodePath => false
          end then false
  else if one_of "-_.~" c then false
  else if one_of "$&+,/:;=?@" c then
    match mode with
    | encodePath => one_of ";,?" c
    | encodeHost => true
    end
  else true.

Definition upperhex : string := "0123456789ABCDEF".

Definition hexdigit (n : N) : ascii :=
  match String.get (N.to_nat n) upperhex with
  | Some c => c
  | None => "0"%char
  end.

(** [url.escape]: percent-encode the bytes that [shouldEscape] names. *)
Fixpoint escape (s : string) (mode : encoding) : string :=
  match s with
  | EmptyString => EmptyString
  | String c rest =>
      if shouldEscape c mode then
        let n := N_of_ascii c in
        String "%" (String (hexdigit (N.shiftr n 4))
                      (String (hexdigit (N.land n 15)) (escape rest mode)))
      else String c (escape rest mode)
  end.

(** The fields of [url.URL] that the program sets or reads.  The struct
    literal in the handler leaves every other field at its zero value. *)
Record URL := mkURL {
  Scheme : string;
  Host : string;
  Path : string;
  RawQuery : string
}.

Definition EscapedPath (u : URL) : string :=
  if eqs (Path u) "*" then "*" else escape (Path u) encodePath.

Definition starts_with_slash (s : string) : bool :=
  match s with
  | String "/" _ => true
  | _ => false
  end.

Definition nonempty (s : string) : bool := negb (eqs s "").

(** The [String] method of [url.URL] with [Opaque], [User], [ForceQuery] and [Fragment] at
    their zero values. *)
Definition String_ (u : URL) : string :=
  let buf := if nonempty (Scheme u) then Scheme u +:+ ":" else "" in
  let buf :=
    if nonempty (Scheme u) || nonempty (Host u) then
      buf +:+ (if nonempty (Host u) || nonempty (Path u) then "//" else "")
          +:+ (if nonempty (Host u) then escape (Host u) encodeHost else "")
    else buf in
  let path := EscapedPath u in
  let buf :=
    if nonempty path && negb (starts_with_slash path) && nonempty (Host u)
    then buf +:+ "/" else buf in
  let buf :=
    if eqs buf "" && Strings.Contains (fst (Strings.Cut "/" path)) ":"
    then buf +:+ "./" else buf in
  let buf := buf +:+ path in
  if nonempty (RawQuery u) then buf +:+ "?" +:+ RawQuery u else buf.

End Url.

Module Filepath.

(** [filepath.Ext]: the suffix from the last dot of the last element. *)
Fixpoint Ext (path : string) : string :=
  match path with
  | EmptyString => EmptyString
  | String c rest =>
      if Strings.Contains rest "." || Strings.Contains rest "/" then Ext rest
      else if eqc c "." then path
      else EmptyString
  end.

(** The elements that [filepath.Clean] keeps, newest first: empty and "."
    elements go, ".." removes the element before it, or stays when there
    is none to remove and the path is not rooted. *)
Definition clean_step (rooted : bool) (stack : list string) (e : string)
  : list string :=
  if eqs e "" || eqs e "." then stack
  else if eqs e ".." then
    match stack with
    | top :: below => if eqs top ".." then e :: stack else below
    | [] => if rooted then [] else [e]
    end
  else e :: stack.

Definition Clean (path : string) : string :=
  let rooted := Url.starts_with_slash path in
  let kept := rev (fold_left (clean_step rooted) (Strings.Split "/" path) []) in
  let body := Strings.Join "/" kept in
  if rooted then "/" +:+ body
  else if eqs body "" then "." else body.

(** [filepath.Join] of two elements: empty elements are ignored, the rest
    is joined with the separator and cleaned. *)
Definition Join (a b : string) : string :=
  if negb (eqs a "") then Clean (a +:+ "/" +:+ b)
  else if negb (eqs b "") then Clean b
  else "".

End Filepath.

Module Textproto.

Definition upper (c : ascii) : ascii :=
  if Url.between "a" "z" c then ascii_of_N (N_of_ascii c - 32) else c.
Definition lower (c : ascii) : ascii :=
  if Url.between "A" "Z" c then ascii_of_N (N_of_ascii c + 32) else c.

Fixpoint canon (up : bool) (s : string) : string :=
  match s with
  | EmptyString => EmptyString
  | String c rest =>
      String (if up then upper c else lower c) (canon (eqc c "-") rest)
  end.

(** [textproto.CanonicalMIMEHeaderKey] on a key made of token bytes:
    the first letter and the letters after a hyphen in upper case. *)
Definition CanonicalMIMEHeaderKey (s : string) : string := canon true s.

End Textproto.

Local Close Scope Z_scope.

(* ===================================================================== *)
(** ** The world the handler runs in *)
(* ===================================================================== *)

(** A regular file: its bytes, and whether the server process may open it
    for reading and for writing. *)
Record File := mkFile { data : string; readable : bool; writable : bool }.

Abbreviation FS := (gmap string File).

(** An open [*os.File] positioned at offset 0. *)
Record Handle := mkHandle { h_name : string; h_data : string }.

Module Os.

(** [os.Stat]: fails exactly when nothing is at [path]. *)
Definition Stat (fs : FS) (path : string) : option File := fs !! path.

(** [os.Open]: read-only open. *)
Definition Open (fs : FS) (path : string) : string + Handle :=
  match fs !! path with
  | None => inl ("open " +:+ path +:+ ": no such file or directory")
  | Some f =>
      if readable f then inr (mkHandle path (data f))
      else inl ("open " +:+ path +:+ ": permission denied")
  end.

(** [os.OpenFile(path, O_RDWR|O_CREATE, 0644)]: creates an empty file when
    there is none; an existing file is opened as it is (no O_TRUNC) and
    must allow both reading and writing. *)
Definition OpenFile_rdwr_create (fs : FS) (path : string) : string + FS :=
  match fs !! path with
  | None => inr (<[path := mkFile "" true true]> fs)
  | Some f =>
      if readable f && writable f then inr fs
      else inl ("open " +:+ path +:+ ": permission denied")
  end.

Fixpoint drop (n : nat) (s : string) : string :=
  match n, s with
  | O, _ => s
  | S n', String _ s' => drop n' s'
  | S _, EmptyString => EmptyString
  end.

(** Writing [p] at offset 0 of the file at [path]: the bytes beyond
    [p] stay. *)
Definition write_at_start (fs : FS) (path : string) (p : string) : FS :=
  match fs !! path with
  | Some f =>
      <[path := mkFile (p +:+ drop (String.length p) (data f))
                       (readable f) (writable f)]> fs
  | None => fs
  end.

End Os.

(** [http.Header]. *)
Abbreviation Header := (gmap string (list string)).

Module Hdr.
Definition Add (k v : string) (h : Header) : Header :=
  let k' := Textproto.CanonicalMIMEHeaderKey k in
  <[k' := default [] (h !! k') ++ [v]]> h.
Definition Set_ (k v : string) (h : Header) : Header :=
  <[Textproto.CanonicalMIMEHeaderKey k := [v]]> h.
Definition Del (k : string) (h : Header) : Header :=
  delete (Textproto.CanonicalMIMEHeaderKey k) h.
Definition Get (k : string) (h : Header) : string :=
  match h !! Textproto.CanonicalMIMEHeaderKey k with
  | Some (x :: _) => x
  | _ => ""
  end.
End Hdr.

(** The server's [http.ResponseWriter].  [header] is the map [Header()]
    returns, which the handler may change at any time; [committed] is the
    status code and the copy of the header map taken by the first
    [WriteHeader] (explicit, or implied by the first [Write]): later changes
    of [header] are not sent.  [body] is what the connection accepted and
    [conn_ok] tells whether it accepts writes. *)
Record ResponseWriter := mkRW {
  header : Header;
  committed : option (nat * Header);
  body : string;
  conn_ok : bool
}.

Module RW.

Definition fresh (conn : bool) : ResponseWriter := mkRW ∅ None "" conn.

Definition upd_header (f : Header → Header) (rw : ResponseWriter) :=
  mkRW (f (header rw)) (committed rw) (body rw) (conn_ok rw).

(** A second [WriteHeader] is superfluous and ignored. *)
Definition WriteHeader (code : nat) (rw : ResponseWriter) : ResponseWriter :=
  match committed rw with
  | Some _ => rw
  | None => mkRW (header rw) (Some (code, header rw)) (body rw) (conn_ok rw)
  end.

Definition errBrokenPipe : string := "write: broken pipe".

(** [Write]: implies [WriteHeader(200)] when no header was written. *)
Definition Write (p : string) (rw : ResponseWriter)
  : option string * ResponseWriter :=
  let rw := WriteHeader 200 rw in
  if eqs p "" then (None, rw)
  else if conn_ok rw then
    (None, mkRW (header rw) (committed rw) (body rw +:+ p) (conn_ok rw))
  else (Some errBrokenPipe, rw).

(** [io.Copy(rw, r)] from an open file: nothing is written, not even the
    header, when the file is empty. *)
Definition Copy (r : Handle) (rw : ResponseWriter)
  : option string * ResponseWriter :=
  if eqs (h_data r) "" then (None, rw) else Write (h_data r) rw.

Definition newline : string := String (ascii_of_nat 10) "".

(** [http.Error]. *)
Definition Error (msg : string) (code : nat) (rw : ResponseWriter)
  : ResponseWriter :=
  let rw := upd_header (Hdr.Del "Content-Length") rw in
  let rw := upd_header (Hdr.Set_ "Content-Type" "text/plain; charset=utf-8") rw in
  let rw := upd_header (Hdr.Set_ "X-Content-Type-Options" "nosniff") rw in
  let rw := WriteHeader code rw in
  snd (Write (msg +:+ newline) rw).

End RW.

(** The header block [http.Error] prepares. *)
Definition error_header (h : Header) : Header :=
  Hdr.Set_ "X-Content-Type-Options" "nosniff"
    (Hdr.Set_ "Content-Type" "text/plain; charset=utf-8"
       (Hdr.Del "Content-Length" h)).

(** What the outside does: the origin behind [client.Get], the program run
    by [exec.CommandContext(...).CombinedOutput()] and the content sniffing
    of net/http. *)
Record Response := mkResponse {
  StatusCode : nat;
  Body : string;            (* the bytes read from the body ... *)
  BodyErr : option string   (* ... before end of file, or before this error *)
}.

Record Env := mkEnv {
  client_Get : string → string + Response;
  run_command : string → list string → FS → FS * string * option string;
  DetectContentType : string → string
}.

(** The status line, header block and body that reach the client once the
    handler has returned: a handler that wrote no header gets status 200
    with the header map as it is then; a response with a body and no
    Content-Type gets the sniffed one. *)
Definition wire (E : Env) (rw : ResponseWriter) : nat * Header * string :=
  let '(code, h) := default (200, header rw) (committed rw) in
  let h :=
    match h !! "Content-Type" with
    | Some _ => h
    | None =>
        if eqs (body rw) "" then h
        else <["Content-Type" := [DetectContentType E (String.substring 0 512 (body rw))]]> h
    end in
  (code, h, body rw).

Definition wire_status (E : Env) (rw : ResponseWriter) : nat := fst (fst (wire E rw)).
Definition wire_header (E : Env) (rw : ResponseWriter) : Header := snd (fst (wire E rw)).

Inductive level := INFO | WARN | ERRO.

Inductive event :=
| EvGet (url : string)
| EvExec (name : string) (args : list string)
| EvLog (lvl : level) (msg : string).

(** The cache store: [m] is the [sync.Map] from path to [*sync.RWMutex];
    a mutex is an index into [rwmutexes], which holds for each allocated
    mutex the number of read locks held on it. *)
Record store := mkStore { m : gmap string nat; rwmutexes : list nat }.

Record World := mkWorld {
  fs : FS;
  cache : store;
  rw : ResponseWriter;
  trace : list event
}.

Definition with_fs (x : FS) (w : World) := mkWorld x (cache w) (rw w) (trace w).
Definition with_cache (x : store) (w : World) := mkWorld (fs w) x (rw w) (trace w).
Definition with_rw (x : ResponseWriter) (w : World) := mkWorld (fs w) (cache w) x (trace w).
Definition emit (e : event) (w : World) := mkWorld (fs w) (cache w) (rw w) (trace w ++ [e]).

Definition gets (t : list event) : list string :=
  omap (fun e => match e with EvGet u => Some u | _ => None end) t.
Definition execs (t : list event) : list (string * list string) :=
  omap (fun e => match e with EvExec n a => Some (n, a) | _ => None end) t.

(* ===================================================================== *)
(** ** The store *)
(* ===================================================================== *)

Definition errKeyNotFound : string := "key not found".

Definition newStore (dir : string) : store := mkStore ∅ [].

(** [&sync.RWMutex{}]: a new mutex nobody holds. *)
Definition new_RWMutex (s : store) : nat * store :=
  (length (rwmutexes s), mkStore (m s) (rwmutexes s ++ [0])).

(** [sync.Map.LoadOrStore], one atomic step. *)
Definition LoadOrStore (key : string) (value : nat) (s : store)
  : (nat * bool) * store :=
  match m s !! key with
  | Some actual => ((actual, true), s)
  | None => ((value, false), mkStore (<[key := value]> (m s)) (rwmutexes s))
  end.

(** [RLock] and [RUnlock].  No code path takes the write lock, so a read
    lock is never kept waiting. *)
Definition RLock (mu : nat) (s : store) : store :=
  mkStore (m s) (alter S mu (rwmutexes s)).
Definition RUnlock (mu : nat) (s : store) : store :=
  mkStore (m s) (alter pred mu (rwmutexes s)).

Definition store_get (path : string) (w : World) : (string + Handle) * World :=
  let '(fresh, c) := new_RWMutex (cache w) in
  let '((mu, _), c) := LoadOrStore path fresh c in
  let w := with_cache (RLock mu c) w in
  let res :=
    match Os.Stat (fs w) path with
    | None => inl errKeyNotFound
    | Some _ =>
        match Os.Open (fs w) path with
        | inl _ => inl errKeyNotFound
        | inr f => inr f
        end
    end in
  (res, with_cache (RUnlock mu (cache w)) w).

Definition store_set (key : string) (f : World → option string * World)
  (w : World) : option string * World :=
  let '(fresh, c) := new_RWMutex (cache w) in
  let '((mu, _), c) := LoadOrStore key fresh c in
  let w := with_cache (RLock mu c) w in
  let '(err, w) := f w in
  (err, with_cache (RUnlock mu (cache w)) w).

(* ===================================================================== *)
(** ** main.go: the handler *)
(* ===================================================================== *)

Record Request := mkRequest { r_URL : Url.URL }.

Definition log (lvl : level) (msg : string) (w : World) : World :=
  emit (EvLog lvl msg) w.

Definition http_Error (msg : string) (code : nat) (w : World) : World :=
  with_rw (RW.Error msg code (rw w)) w.

Definition StatusBadRequest : nat := 400.
Definition StatusInternalServerError : nat := 500.

(** The cache key: the hex SHA-1 of the request path followed by the raw
    query (the handler's [filename]). *)
Definition fingerprint (path rawQuery : string) : string :=
  Hex.EncodeToString (Sha1.Sum (path +:+ rawQuery)).

Definition writeWebp (r : Handle) (w : World) : option string * World :=
  match RW.Copy r (rw w) with
  | (Some err, rw') => (Some err, with_rw rw' w)
  | (None, rw') =>
      (None, with_rw (RW.upd_header (Hdr.Add "content-type" "image/webp") rw') w)
  end.

(** [io.Copy(origFile, res.Body)]: the bytes read from the body go to the
    start of the scratch file; a read error of the body is returned after
    them. *)
Definition copy_body (origPath : string) (res : Response) (w : World)
  : option string * World :=
  (BodyErr res, with_fs (Os.write_at_start (fs w) origPath (Body res)) w).

Definition or_zero (s : string) : string := if eqs s "" then "0" else s.

Section Handler.

Variable E : Env.
Variable cacheDir : string.
Variable originalURL : Url.URL.

Definition webpPath_of (r : Request) : string :=
  Filepath.Join cacheDir
    (fingerprint (Url.Path (r_URL r)) (Url.RawQuery (r_URL r)) +:+ ".webp").

Definition origPath_of (r : Request) : string :=
  Filepath.Join cacheDir
    (fingerprint (Url.Path (r_URL r)) (Url.RawQuery (r_URL r))
     +:+ Filepath.Ext (Url.Get (Url.ParseQuery (Url.RawQuery (r_URL r))) "url")).

Definition fullURL_of (r : Request) : string :=
  Url.String_
    (Url.mkURL (Url.Scheme originalURL) (Url.Host originalURL)
       (Url.Get (Url.ParseQuery (Url.RawQuery (r_URL r))) "url") "").

Definition cwebp_args (r : Request) : list string :=
  let query := Url.ParseQuery (Url.RawQuery (r_URL r)) in
  ["-quiet"; "-q"; Url.Get query "q"; "-resize";
   or_zero (Url.Get query "w"); or_zero (Url.Get query "h");
   origPath_of r; "-o"; webpPath_of r].

(** The function passed to [cache.set]. *)
Definition transform (r : Request) (w : World) : option string * World :=
  let w := emit (EvExec "cwebp" (cwebp_args r)) w in
  let '(fs', out, err) := run_command E "cwebp" (cwebp_args r) (fs w) in
  (match err with
   | Some e => Some ("failed to execute cwebp (" +:+ out +:+ "): " +:+ e)
   | None => None
   end, with_fs fs' w).

Definition fail500 (err : string) (w : World) : World :=
  http_Error err StatusInternalServerError (log ERRO err w).

(** Lines 137 to 213: what the handler does when the cache lookup did not
    end the request. *)
Definition produce (r : Request) (w : World) : World :=
  let query := Url.ParseQuery (Url.RawQuery (r_URL r)) in
  let urlQ := Url.Get query "url" in
  if eqs urlQ "" then
    http_Error "query `url` is emptry" StatusBadRequest w
  else
    let w := emit (EvGet (fullURL_of r)) w in
    match client_Get E (fullURL_of r) with
    | inl err => fail500 err w
    | inr res =>
        match Os.OpenFile_rdwr_create (fs w) (origPath_of r) with
        | inl err => fail500 err w
        | inr fs1 =>
            match copy_body (origPath_of r) res (with_fs fs1 w) with
            | (Some err, w) => fail500 err w
            | (None, w) =>
                match store_set (webpPath_of r) (transform r) w with
                | (Some err, w) => fail500 err w
                | (None, w) =>
                    match Os.Open (fs w) (webpPath_of r) with
                    | inl err => fail500 err w
                    | inr webpFile =>
                        match writeWebp webpFile w with
                        | (Some err, w) => fail500 err w
                        | (None, w) => w
                        end
                    end
                end
            end
        end
    end.

Definition handler (r : Request) (w : World) : World :=
  match store_get (webpPath_of r) w with
  | (inr f, w) =>
      match writeWebp f w with
      | (Some err, w) => produce r (log WARN err w)
      | (None, w) => w
      end
  | (inl _, w) => produce r w
  end.

End Handler.

(* ===================================================================== *)
(** ** Derived forms of [get] and [set] *)
(* ===================================================================== *)

(** The first two statements of [get] and of [set]: the mutex the caller
    ends up with, and the store afterwards. *)
Definition acquire (key : string) (s : store) : nat * store :=
  let '(fresh, c) := new_RWMutex s in
  let '((mu, _), c) := LoadOrStore key fresh c in
  (mu, c).

Definition locked_section (key : string) (s : store) : store :=
  let '(mu, c) := acquire key s in RUnlock mu (RLock mu c).

Definition lookup_result (fs : FS) (path : string) : string + Handle :=
  match fs !! path with
  | Some f =>
      if readable f then inr (mkHandle path (data f)) else inl errKeyNotFound
  | None => inl errKeyNotFound
  end.

(* ===================================================================== *)
(** ** The lock table under concurrent [get] and [set] *)
(* ===================================================================== *)

(** Each running [get] or [set] is a thread.  Its steps on the store are
    the allocation of [&sync.RWMutex{}], the atomic [LoadOrStore], [RLock]
    and the deferred [RUnlock]; what lies between [RLock] and [RUnlock]
    ([os.Stat] and [os.Open], or the callback of [set]) does not touch the
    store.  A schedule names the thread that takes the next step. *)
Module Locks.

Inductive thread :=
| Start (key : string)
| Allocated (key : string) (fresh : nat)
| Loaded (key : string) (mu : nat)
| Locked (key : string) (mu : nat)
| Done (key : string) (mu : nat).

Definition step_thread (t : thread) (s : store) : thread * store :=
  match t with
  | Start k => let '(p, s') := new_RWMutex s in (Allocated k p, s')
  | Allocated k p =>
      let '((mu, _), s') := LoadOrStore k p s in (Loaded k mu, s')
  | Loaded k mu => (Locked k mu, RLock mu s)
  | Locked k mu => (Done k mu, RUnlock mu s)
  | Done k mu => (Done k mu, s)
  end.

Definition config : Type := store * list thread.

Definition step (i : nat) (c : config) : config :=
  match c.2 !! i with
  | Some t => let '(t', s') := step_thread t c.1 in (s', <[i := t']> c.2)
  | None => c
  end.

Definition run (sched : list nat) (c : config) : config :=
  fold_left (fun c i => step i c) sched c.

Definition key_of (t : thread) : string :=
  match t with
  | Start k | Allocated k _ | Loaded k _ | Locked k _ | Done k _ => k
  end.

(** The mutex a thread got back from [LoadOrStore]. *)
Definition obtained (t : thread) : option (string * nat) :=
  match t with
  | Loaded k mu | Locked k mu | Done k mu => Some (k, mu)
  | Start _ | Allocated _ _ => None
  end.

Definition phase (t : thread) : nat :=
  match t with
  | Start _ => 0
  | Allocated _ _ => 1
  | Loaded _ _ => 2
  | Locked _ _ => 3
  | Done _ _ => 4
  end.

Definition turns (i : nat) (sched : list nat) : nat :=
  length (filter (fun j => j = i) sched).

Record Inv (s0 : store) (ks : list string) (c : config) : Prop := {
  inv_keys : ∀ i t, c.2 !! i = Some t → ks !! i = Some (key_of t);
  inv_kept : ∀ k mu, m s0 !! k = Some mu → m c.1 !! k = Some mu;
  inv_held : ∀ i t k mu,
      c.2 !! i = Some t → obtained t = Some (k, mu) → m c.1 !! k = Some mu;
  inv_new : ∀ k mu,
      m c.1 !! k = Some mu →
      m s0 !! k = Some mu
      ∨ (m s0 !! k = None ∧ k ∈ ks ∧ length (rwmutexes s0) ≤ mu);
  inv_heap : length (rwmutexes s0) ≤ length (rwmutexes c.1);
  inv_alloc : ∀ i k p,
      c.2 !! i = Some (Allocated k p) → length (rwmutexes s0) ≤ p
}.

End Locks.

(* ===================================================================== *)
(** ** Read locks held, and stores whose table points into the heap *)
(* ===================================================================== *)

(** The number of read locks held on the mutex [mu]. *)
Definition readers (mu : nat) (s : store) : nat := default 0 (rwmutexes s !! mu).

(** Every mutex the table names has been allocated. *)
Definition store_wf (s : store) : Prop :=
  ∀ k mu, m s !! k = Some mu → mu < length (rwmutexes s).

(** The table after an operation on [key]: an existing entry stays, a new
    key gets the mutex allocated by this operation. *)
Definition table_after (key : string) (s : store) : gmap string nat :=
  match m s !! key with
  | Some _ => m s
  | None => <[key := length (rwmutexes s)]> (m s)
  end.

(* ===================================================================== *)
(** ** The answers of the handler *)
(* ===================================================================== *)

(** The three answers of the handler, on a world [w'] reached from a trace
    [tr]. *)
Definition answered_200 (E : Env) (path : string) (w' : World) : Prop :=
  wire_status E (rw w') = 200
  ∧ ∃ f, fs w' !! path = Some f ∧ readable f = true ∧ body (rw w') = data f.

Definition answered_400 (E : Env) (tr : list event) (w' : World) : Prop :=
  wire E (rw w')
  = (StatusBadRequest, error_header ∅, "query `url` is emptry" +:+ RW.newline)
  ∧ trace w' = tr.

Definition answered_500 (E : Env) (tr : list event) (w' : World) : Prop :=
  ∃ evs msg,
    wire E (rw w')
    = (StatusInternalServerError, error_header ∅, msg +:+ RW.newline)
    ∧ trace w' = tr ++ evs ++ [EvLog ERRO msg].

(* ===================================================================== *)
(** ** File names and the directory in front of them *)
(* ===================================================================== *)

Fixpoint all_chars (P : ascii → bool) (s : string) : bool :=
  match s with
  | EmptyString => true
  | String c s' => P c && all_chars P s'
  end.

Definition is_lower_hex (c : ascii) : bool := Strings.Contains Hex.hextable c.

(** What [filepath.Join dir name] puts in front of [name]: the cleaned
    directory and a separator (nothing for the directories "" and "."
    cleaned away, "/" for the root). *)
Definition dir_prefix (dir : string) : string :=
  let rooted := Url.starts_with_slash dir in
  let kept :=
    rev (fold_left (Filepath.clean_step rooted) (Strings.Split "/" dir) []) in
  (if rooted then "/" else "")
  +:+ match kept with
      | [] => ""
      | _ => Strings.Join "/" kept +:+ "/"
      end.

(** A file name that [filepath.Clean] keeps as it is. *)
Definition plain_name (b : string) : Prop :=
  Strings.Contains b "/" = false ∧ b ≠ "" ∧ b ≠ "." ∧ b ≠ "..".

(* ===================================================================== *)
(** ** main.go: the flags *)
(* ===================================================================== *)

(** The values of the flag variables once [flag.Parse] has read the
    command line (a flag that is not given keeps its default). *)
Record Flags := mkFlags {
  fl_port : Z;
  fl_cacheDir : string;
  fl_cacheSize : Z;
  fl_originalURL : string;
  fl_cors : string
}.

(** The defaults of [parseFlags]: the initial values of the globals, and
    the empty string for [cors]. *)
Definition default_flags : Flags := mkFlags 8098 "" 128 "" "".

(** The package-level variables [parseFlags] sets. *)
Record Globals := mkGlobals {
  g_port : Z;
  g_cacheDir : string;
  g_cacheSize : Z;
  g_originalURL : string;
  g_allowedOrigins : list string
}.

Definition errEmptyCacheDirFlag : string := "flag `-cache-dir` is empty".
Definition errEmptyOriginalFlag : string := "flag `-original-url` is empty".

Definition parseFlags (parsed : Flags) : option string * Globals :=
  let g := mkGlobals (fl_port parsed) (fl_cacheDir parsed) (fl_cacheSize parsed)
             (fl_originalURL parsed) (Strings.Split "," (fl_cors parsed)) in
  if eqs (g_cacheDir g) "" then (Some errEmptyCacheDirFlag, g)
  else if eqs (g_originalURL g) "" then (Some errEmptyOriginalFlag, g)
  else (None, g).

Fixpoint count_char (c : ascii) (s : string) : nat :=
  match s with
  | EmptyString => 0
  | String x s' => (if eqc x c then 1 else 0) + count_char c s'
  end.

(* ===================================================================== *)
(** ** Threads inside their locked section *)
(* ===================================================================== *)

(** The thread holds a read lock on [mu]: it is between [RLock] and the
    deferred [RUnlock]. *)
Definition holds (mu : nat) (t : Locks.thread) : nat :=
  match t with
  | Locks.Locked _ mu' => if decide (mu' = mu) then 1 else 0
  | _ => 0
  end.

Definition holders (mu : nat) (ts : list Locks.thread) : nat :=
  sum_list (map (holds mu) ts).

(** The mutex a thread has in hand, allocated or obtained. *)
Definition in_hand (t : Locks.thread) : option nat :=
  match t with
  | Locks.Start _ => None
  | Locks.Allocated _ p => Some p
  | Locks.Loaded _ mu | Locks.Locked _ mu | Locks.Done _ mu => Some mu
  end.

Record Balanced (s0 : store) (c : Locks.config) : Prop := {
  bal_wf : store_wf c.1;
  bal_hand : ∀ i t mu, c.2 !! i = Some t → in_hand t = Some mu →
                       mu < length (rwmutexes c.1);
  bal_count : ∀ mu, readers mu c.1 = readers mu s0 + holders mu c.2;
  bal_heap : length (rwmutexes s0) ≤ length (rwmutexes c.1)
}.

(* ===================================================================== *)
(** ** A sample deployment, for the examples *)
(* ===================================================================== *)

Module Sample.

(** The signature net/http's sniffer knows WebP by: "RIFF", four bytes of
    length, "WEBPVP". *)
Definition is_webp (s : string) : bool :=
  eqs (String.substring 0 4 s) "RIFF" && eqs (String.substring 8 6 s) "WEBPVP".

(** A stand-in for [http.DetectContentType], right on the two kinds of
    bytes the examples serve: a WebP file, and plain ASCII text. *)
Definition sniff (s : string) : string :=
  if is_webp s then "image/webp" else "text/plain; charset=utf-8".

Definition webp_bytes : string := "RIFF1234WEBPVP8 image".

(** A cwebp that succeeds and writes a WebP file at the path after "-o". *)
Definition cwebp_ok (name : string) (args : list string) (fs : FS)
  : FS * string * option string :=
  (<[nth 8 args "" := mkFile webp_bytes true true]> fs, "", None).

(** An origin that answers every GET with the same body. *)
Definition origin_answers (code : nat) (body : string) (url : string)
  : string + Response :=
  inr (mkResponse code body None).

Definition env : Env := mkEnv (origin_answers 200 "PNG") cwebp_ok sniff.

Definition cacheDir : string := "/var/cache/img".
Definition originalURL : Url.URL := Url.mkURL "http" "img.example.com" "" "".

Definition request (path rawQuery : string) : Request :=
  mkRequest (Url.mkURL "" "" path rawQuery).

(** A server whose cache directory holds the files [files], before any
    request, answering on a connection that accepts writes or not. *)
Definition world (files : FS) (conn : bool) : World :=
  mkWorld files (newStore cacheDir) (RW.fresh conn) [].

End Sample.

(* ===================================================================== *)
(** ** More sample collaborators *)
(* ===================================================================== *)

Module Sample2.

(** A cwebp that fails and leaves the files alone. *)
Definition cwebp_fails (name : string) (args : list string) (fs : FS)
  : FS * string * option string :=
  (fs, "cannot decode", Some "exit status 255").

End Sample2.

(* ===================================================================== *)
(** ** The library models on known values *)
(* ===================================================================== *)

Example sha1_abc :
  Hex.EncodeToString (Sha1.Sum "abc") = "a9993e364706816aba3e25717850c26c9cd0d89d".
Proof. vm_compute. reflexivity. Qed.

Example sha1_empty :
  Hex.EncodeToString (Sha1.Sum "") = "da39a3ee5e6b4b0d3255bfef95601890afd80709".
Proof. vm_compute. reflexivity. Qed.

Example sha1_two_blocks :
  Hex.EncodeToString
    (Sha1.Sum "abcdbcdecdefdefgefghfghighijhijkijkljklmklmnlmnomnopnopq")
  = "84983e441c3bd26ebaae4aa1f95129e5e54670f1".
Proof. vm_compute. reflexivity. Qed.

Example ext_png : Filepath.Ext "/img/a.b/photo.png" = ".png".
Proof. reflexivity. Qed.
Example ext_none : Filepath.Ext "/img/a.b/photo" = "".
Proof. reflexivity. Qed.
Example join_cache : Filepath.Join "/var/cache/" "ab.webp" = "/var/cache/ab.webp".
Proof. reflexivity. Qed.
Example join_rel : Filepath.Join "./c/../cache" "ab.webp" = "cache/ab.webp".
Proof. reflexivity. Qed.
Example query_get :
  Url.Get (Url.ParseQuery "url=%2Fa%20b.png&w=10&url=/other") "url" = "/a b.png".
Proof. reflexivity. Qed.
Example query_absent : Url.Get (Url.ParseQuery "w=10&h=20") "url" = "".
Proof. reflexivity. Qed.
Example url_string :
  Url.String_ (Url.mkURL "https" "img.example.com" "/a b?.png" "")
  = "https://img.example.com/a%20b%3F.png".
Proof. reflexivity. Qed.
Example canon_ct : Textproto.CanonicalMIMEHeaderKey "content-type" = "Content-Type".
Proof. reflexivity. Qed.

(* ===================================================================== *)
(** ** The store: what [get] and [set] return and change *)
(* ===================================================================== *)

Lemma store_get_eq path w :
  store_get path w
  = (lookup_result (fs w) path, with_cache (locked_section path (cache w)) w).
Proof.
  unfold store_get, locked_section, acquire, lookup_result, new_RWMutex,
    LoadOrStore, Os.Stat, Os.Open; simpl.
  destruct (m (cache w) !! path); simpl;
    destruct (fs w !! path) as [f|]; simpl; try reflexivity;
    destruct (readable f); reflexivity.
Qed.

Lemma store_set_eq key f w :
  store_set key f w
  = let '(mu, c) := acquire key (cache w) in
    let '(err, w') := f (with_cache (RLock mu c) w) in
    (err, with_cache (RUnlock mu (cache w')) w').
Proof.
  unfold store_set, acquire, new_RWMutex, LoadOrStore; simpl.
  destruct (m (cache w) !! key); reflexivity.
Qed.

Lemma acquire_table key s :
  m (snd (acquire key s))
  = match m s !! key with Some _ => m s | None => <[key := length (rwmutexes s)]> (m s) end.
Proof.
  unfold acquire, new_RWMutex, LoadOrStore; simpl.
  destruct (m s !! key); reflexivity.
Qed.

Lemma acquire_lookup key s :
  m (snd (acquire key s)) !! key = Some (fst (acquire key s)).
Proof.
  unfold acquire, new_RWMutex, LoadOrStore; simpl.
  destruct (m s !! key) eqn:Hk; simpl; [exact Hk | apply lookup_insert_eq].
Qed.

Lemma locked_section_table key s :
  m (locked_section key s) = m (snd (acquire key s)).
Proof. unfold locked_section. destruct (acquire key s); reflexivity. Qed.

(** C8.  [store.get] returns the error [errKeyNotFound] ("key not found")
    exactly when nothing is at [path] or [os.Open] fails, it has no other
    error, otherwise it returns the handle [os.Open] gives for [path] (on
    the bytes of that file), and in every case the file system is left as
    it was. *)
Theorem store_get_not_found_iff :
  ∀ (path : string) (w : World),
    (fst (store_get path w) = inl errKeyNotFound
     ↔ (fs w !! path = None ∨ ∃ e, Os.Open (fs w) path = inl e))
    ∧ (∀ e, fst (store_get path w) = inl e → e = errKeyNotFound)
    ∧ (∀ h, fst (store_get path w) = inr h →
         Os.Open (fs w) path = inr h ∧ h_name h = path
         ∧ ∃ f, fs w !! path = Some f ∧ readable f = true ∧ h_data h = data f)
    ∧ fs (snd (store_get path w)) = fs w.
Proof.
  intros path w. rewrite store_get_eq. simpl.
  unfold lookup_result, Os.Open.
  destruct (fs w !! path) as [f|] eqn:Hf; [destruct (readable f) eqn:Hr|];
    (split; [split|split; [|split; [|reflexivity]]]).
  - intros H; discriminate H.
  - intros [H | [e H]]; discriminate H.
  - intros e H; discriminate H.
  - intros h H. injection H as <-. simpl.
    split; [reflexivity | split; [reflexivity | exists f; auto]].
  - intros _. right. eexists. reflexivity.
  - reflexivity.
  - intros e H. injection H as <-. reflexivity.
  - intros h H. discriminate H.
  - intros _. left. reflexivity.
  - reflexivity.
  - intros e H. injection H as <-. reflexivity.
  - intros h H. discriminate H.
Qed.

(* ===================================================================== *)
(** ** The lock table: one mutex per key, for every schedule *)
(* ===================================================================== *)

Lemma RLock_table mu s : m (RLock mu s) = m s.
Proof. reflexivity. Qed.

Lemma RUnlock_table mu s : m (RUnlock mu s) = m s.
Proof. reflexivity. Qed.

Lemma RLock_heap mu s : length (rwmutexes (RLock mu s)) = length (rwmutexes s).
Proof. unfold RLock; simpl. apply length_alter. Qed.

Lemma RUnlock_heap mu s : length (rwmutexes (RUnlock mu s)) = length (rwmutexes s).
Proof. unfold RUnlock; simpl. apply length_alter. Qed.

(** A step of any thread keeps the entries of the table and the mutexes
    allocated so far. *)
Lemma step_thread_kept t s k mu :
  m s !! k = Some mu → m (Locks.step_thread t s).2 !! k = Some mu.
Proof.
  intros H. destruct t as [k'|k' p|k' mu'|k' mu'|k' mu']; simpl; try exact H.
  unfold LoadOrStore. destruct (m s !! k') eqn:Hk'; simpl; [exact H|].
  rewrite lookup_insert_ne; [exact H | congruence].
Qed.

Lemma step_thread_heap t s :
  length (rwmutexes s) ≤ length (rwmutexes (Locks.step_thread t s).2).
Proof.
  destruct t as [k|k p|k mu|k mu|k mu]; simpl.
  - rewrite length_app; simpl; lia.
  - unfold LoadOrStore. destruct (m s !! k); simpl; lia.
  - rewrite length_alter; lia.
  - rewrite length_alter; lia.
  - lia.
Qed.

Lemma step_thread_key t s : Locks.key_of (Locks.step_thread t s).1 = Locks.key_of t.
Proof.
  destruct t as [k|k p|k mu|k mu|k mu]; simpl; try reflexivity.
  unfold LoadOrStore. destruct (m s !! k); reflexivity.
Qed.

Lemma step_thread_phase t s :
  Locks.phase (Locks.step_thread t s).1 = Nat.min 4 (S (Locks.phase t)).
Proof.
  destruct t as [k|k p|k mu|k mu|k mu]; simpl; try reflexivity.
  unfold LoadOrStore. destruct (m s !! k); reflexivity.
Qed.

Lemma step_unfold i c t :
  c.2 !! i = Some t →
  Locks.step i c = ((Locks.step_thread t c.1).2, <[i := (Locks.step_thread t c.1).1]> c.2).
Proof.
  intros H. unfold Locks.step. rewrite H.
  destruct (Locks.step_thread t c.1); reflexivity.
Qed.

Lemma step_idle i c : c.2 !! i = None → Locks.step i c = c.
Proof. intros H. unfold Locks.step. rewrite H. reflexivity. Qed.

Lemma Inv_init s0 ks : Locks.Inv s0 ks (s0, Locks.Start <$> ks).
Proof.
  split; simpl.
  - intros i t H. rewrite list_lookup_fmap in H.
    destruct (ks !! i) as [k|]; simpl in H; [|discriminate].
    injection H as <-. reflexivity.
  - auto.
  - intros i t k mu H Ho. rewrite list_lookup_fmap in H.
    destruct (ks !! i); simpl in H; [|discriminate].
    injection H as <-. discriminate Ho.
  - auto.
  - lia.
  - intros i k p H. rewrite list_lookup_fmap in H.
    destruct (ks !! i); simpl in H; discriminate.
Qed.

Lemma Inv_step s0 ks i c : Locks.Inv s0 ks c → Locks.Inv s0 ks (Locks.step i c).
Proof.
  intros [Hkeys Hkept Hheld Hnew Hheap Halloc].
  destruct (c.2 !! i) as [t|] eqn:Hi; [|rewrite step_idle by exact Hi; split; assumption].
  rewrite (step_unfold _ _ _ Hi).
  assert (Hlt : i < length c.2) by (eapply lookup_lt_Some; exact Hi).
  split; simpl.
  - intros j t' Hj. destruct (decide (i = j)) as [<-|Hne].
    + rewrite list_lookup_insert_eq in Hj by exact Hlt. injection Hj as <-.
      rewrite step_thread_key. apply Hkeys. exact Hi.
    + rewrite list_lookup_insert_ne in Hj by exact Hne. apply Hkeys. exact Hj.
  - intros k mu H. apply step_thread_kept, Hkept, H.
  - intros j t' k mu Hj Ho. destruct (decide (i = j)) as [<-|Hne].
    + rewrite list_lookup_insert_eq in Hj by exact Hlt. injection Hj as <-.
      destruct t as [k'|k' p|k' mu'|k' mu'|k' mu']; simpl in *;
        try discriminate Ho;
        try (injection Ho as <- <-; eapply Hheld; [exact Hi | reflexivity]).
      unfold LoadOrStore in *. destruct (m c.1 !! k') eqn:Hk'; simpl in *;
        injection Ho as <- <-; [exact Hk' | apply lookup_insert_eq].
    + rewrite list_lookup_insert_ne in Hj by exact Hne.
      apply step_thread_kept. eapply Hheld; [exact Hj | exact Ho].
  - intros k mu H.
    destruct t as [k'|k' p|k' mu'|k' mu'|k' mu']; simpl in H;
      try (apply Hnew; exact H).
    unfold LoadOrStore in H. destruct (m c.1 !! k') eqn:Hk'; simpl in H;
      [apply Hnew; exact H|].
    destruct (decide (k' = k)) as [<-|Hne].
    + rewrite lookup_insert_eq in H. injection H as <-.
      destruct (m s0 !! k') as [mu0|] eqn:H0.
      * rewrite (Hkept _ _ H0) in Hk'. discriminate Hk'.
      * right. split; [reflexivity|]. split.
        -- apply list_elem_of_lookup. exists i. apply (Hkeys _ _ Hi).
        -- eapply Halloc. exact Hi.
    + rewrite lookup_insert_ne in H by exact Hne. apply Hnew; exact H.
  - etransitivity; [exact Hheap | apply step_thread_heap].
  - intros j k p Hj. destruct (decide (i = j)) as [<-|Hne].
    + rewrite list_lookup_insert_eq in Hj by exact Hlt.
      destruct t as [k'|k' p'|k' mu'|k' mu'|k' mu']; simpl in Hj;
        try discriminate Hj.
      * injection Hj as <- <-. exact Hheap.
      * unfold LoadOrStore in Hj. destruct (m c.1 !! k'); discriminate Hj.
    + rewrite list_lookup_insert_ne in Hj by exact Hne. eapply Halloc; exact Hj.
Qed.

Lemma Inv_run s0 ks sched : ∀ c, Locks.Inv s0 ks c → Locks.Inv s0 ks (Locks.run sched c).
Proof.
  induction sched as [|i sched IH]; intros c H; simpl; [exact H|].
  apply IH, Inv_step, H.
Qed.

Lemma step_other i j c : i ≠ j → (Locks.step j c).2 !! i = c.2 !! i.
Proof.
  intros Hne. destruct (c.2 !! j) as [t|] eqn:Hj.
  - rewrite (step_unfold _ _ _ Hj); simpl.
    apply list_lookup_insert_ne. congruence.
  - rewrite step_idle by exact Hj. reflexivity.
Qed.

Lemma step_self i c t :
  c.2 !! i = Some t → (Locks.step i c).2 !! i = Some (Locks.step_thread t c.1).1.
Proof.
  intros Hi. rewrite (step_unfold _ _ _ Hi); simpl.
  apply list_lookup_insert_eq. eapply lookup_lt_Some; exact Hi.
Qed.

Lemma run_cons j sched c : Locks.run (j :: sched) c = Locks.run sched (Locks.step j c).
Proof. reflexivity. Qed.

(** A thread advances by one phase each time it is scheduled, whatever the
    others do in between. *)
Lemma run_phase i sched : ∀ c t,
  c.2 !! i = Some t →
  ∃ t', (Locks.run sched c).2 !! i = Some t'
        ∧ Locks.phase t' = Nat.min 4 (Locks.phase t + Locks.turns i sched).
Proof.
  induction sched as [|j sched IH]; intros c t Hi.
  - exists t. split; [exact Hi|].
    unfold Locks.turns; simpl. destruct t; reflexivity.
  - rewrite run_cons. destruct (decide (j = i)) as [->|Hne].
    + destruct (IH _ _ (step_self _ _ _ Hi)) as (t' & Ht' & Hp).
      exists t'. split; [exact Ht'|]. rewrite Hp, step_thread_phase.
      unfold Locks.turns. rewrite filter_cons_True by reflexivity.
      cbn [length]. lia.
    + assert (Hi' : (Locks.step j c).2 !! i = Some t)
        by (rewrite step_other by congruence; exact Hi).
      destruct (IH _ _ Hi') as (t' & Ht' & Hp).
      exists t'. split; [exact Ht'|]. rewrite Hp.
      unfold Locks.turns. rewrite filter_cons_False by exact Hne. reflexivity.
Qed.

Lemma phase_done t : Locks.phase t = 4 → ∃ mu, t = Locks.Done (Locks.key_of t) mu.
Proof. destruct t; simpl; intros H; try discriminate H. eauto. Qed.

(** C7.  Threads running [get] or [set] on the keys [ks], started on any
    store [s0] and interleaved by any schedule: no entry of the table is
    removed or replaced; every thread past [LoadOrStore] holds the mutex the
    table has for its key, so two threads on the same key hold the same
    mutex, also when both found the key absent; an entry that was not there
    at the start is for a key some thread names and is a mutex allocated
    during the run; and a thread scheduled four times has finished. *)
Theorem lock_table_one_mutex_per_key :
  ∀ (s0 : store) (ks : list string) (sched : list nat),
    let c := Locks.run sched (s0, Locks.Start <$> ks) in
    (∀ k mu, m s0 !! k = Some mu → m c.1 !! k = Some mu)
    ∧ (∀ i t k mu,
         c.2 !! i = Some t → Locks.obtained t = Some (k, mu) →
         ks !! i = Some k ∧ m c.1 !! k = Some mu)
    ∧ (∀ i j t t' k mu mu',
         c.2 !! i = Some t → c.2 !! j = Some t' →
         Locks.obtained t = Some (k, mu) → Locks.obtained t' = Some (k, mu') →
         mu = mu')
    ∧ (∀ k mu,
         m c.1 !! k = Some mu →
         m s0 !! k = Some mu
         ∨ (m s0 !! k = None ∧ k ∈ ks ∧ length (rwmutexes s0) ≤ mu))
    ∧ (∀ i k,
         ks !! i = Some k → 4 ≤ Locks.turns i sched →
         ∃ mu, c.2 !! i = Some (Locks.Done k mu) ∧ m c.1 !! k = Some mu).
Proof.
  intros s0 ks sched c.
  pose proof (Inv_run s0 ks sched _ (Inv_init s0 ks)) as I. fold c in I.
  destruct I as [Hkeys Hkept Hheld Hnew Hheap Halloc].
  assert (Hob : ∀ i t k mu,
             c.2 !! i = Some t → Locks.obtained t = Some (k, mu) →
             ks !! i = Some k ∧ m c.1 !! k = Some mu).
  { intros i t k mu Hi Ho. split; [|eapply Hheld; eauto].
    rewrite (Hkeys _ _ Hi). f_equal.
    destruct t; simpl in *; congruence. }
  split; [exact Hkept|]. split; [exact Hob|]. split; [|split; [exact Hnew|]].
  - intros i j t t' k mu mu' Hi Hj Ho Ho'.
    destruct (Hob _ _ _ _ Hi Ho) as [_ H1].
    destruct (Hob _ _ _ _ Hj Ho') as [_ H2]. congruence.
  - intros i k Hk Hturns.
    assert (H0 : (s0, Locks.Start <$> ks).2 !! i = Some (Locks.Start k))
      by (simpl; rewrite list_lookup_fmap, Hk; reflexivity).
    destruct (run_phase i sched _ _ H0) as (t' & Ht' & Hp). fold c in Ht'.
    cbn [Locks.phase] in Hp. assert (Hp4 : Locks.phase t' = 4) by lia.
    destruct (phase_done _ Hp4) as [mu Hmu].
    pose proof (Hkeys _ _ Ht') as Hkey. rewrite Hk in Hkey. injection Hkey as Hkey.
    rewrite <- Hkey in Hmu. subst t'.
    exists mu. split; [exact Ht'|]. eapply Hheld; [exact Ht' | reflexivity].
Qed.

(** One thread alone runs [get]'s (and [set]'s) own sequence of store
    operations. *)
Lemma thread_alone_is_locked_section k s :
  Locks.run [0; 0; 0; 0] (s, [Locks.Start k])
  = (locked_section k s, [Locks.Done k (acquire k s).1]).
Proof.
  destruct (m s !! k) eqn:Hk;
    unfold Locks.run, Locks.step, locked_section, acquire, new_RWMutex; simpl;
    unfold LoadOrStore; simpl; rewrite Hk; reflexivity.
Qed.

(** Two first-time operations on the same new key, the second thread
    reaching [LoadOrStore] first: both end with the mutex the table kept. *)
Lemma lock_table_race_witness :
  let c := Locks.run [0; 1; 1; 0; 0; 1; 0; 1]
             (newStore "cache", Locks.Start <$> ["k.webp"; "k.webp"]) in
  ∃ mu, c.2 !! 0 = Some (Locks.Done "k.webp" mu)
        ∧ c.2 !! 1 = Some (Locks.Done "k.webp" mu)
        ∧ m c.1 !! "k.webp" = Some mu.
Proof.
  intros c.
  destruct (lock_table_one_mutex_per_key (newStore "cache") ["k.webp"; "k.webp"]
              [0; 1; 1; 0; 0; 1; 0; 1]) as (_ & _ & Hsame & _ & Hdone).
  destruct (Hdone 0 "k.webp" eq_refl) as (mu & H0 & Hm);
    [vm_compute; lia|].
  destruct (Hdone 1 "k.webp" eq_refl) as (mu' & H1 & _);
    [vm_compute; lia|].
  exists mu. split; [exact H0|]. split; [|exact Hm].
  rewrite (Hsame 0 1 _ _ "k.webp" mu mu' H0 H1 eq_refl eq_refl). exact H1.
Defined.

(* ===================================================================== *)
(** ** The handler: what each step leaves behind *)
(* ===================================================================== *)

Lemma http_Error_fs msg code w : fs (http_Error msg code w) = fs w.
Proof. reflexivity. Qed.
Lemma http_Error_cache msg code w : cache (http_Error msg code w) = cache w.
Proof. reflexivity. Qed.
Lemma http_Error_trace msg code w : trace (http_Error msg code w) = trace w.
Proof. reflexivity. Qed.

Lemma fail500_fs err w : fs (fail500 err w) = fs w.
Proof. reflexivity. Qed.
Lemma fail500_trace err w : trace (fail500 err w) = trace w ++ [EvLog ERRO err].
Proof. reflexivity. Qed.

Lemma writeWebp_fs f w : fs (writeWebp f w).2 = fs w.
Proof. unfold writeWebp. destruct (RW.Copy f (rw w)) as [[e|] rw']; reflexivity. Qed.
Lemma writeWebp_cache f w : cache (writeWebp f w).2 = cache w.
Proof. unfold writeWebp. destruct (RW.Copy f (rw w)) as [[e|] rw']; reflexivity. Qed.
Lemma writeWebp_trace f w : trace (writeWebp f w).2 = trace w.
Proof. unfold writeWebp. destruct (RW.Copy f (rw w)) as [[e|] rw']; reflexivity. Qed.

Lemma gets_app t1 t2 : gets (t1 ++ t2) = gets t1 ++ gets t2.
Proof. unfold gets. apply omap_app. Qed.
Lemma execs_app t1 t2 : execs (t1 ++ t2) = execs t1 ++ execs t2.
Proof. unfold execs. apply omap_app. Qed.

(** [cache.set] around the call of cwebp: the call is logged in the trace,
    the file system is what the tool leaves, the store has gone through
    one locked section. *)
Lemma store_set_transform E dir r w :
  store_set (webpPath_of dir r) (transform E dir r) w
  = let '(fs', out, err) := run_command E "cwebp" (cwebp_args dir r) (fs w) in
    (match err with
     | Some e => Some ("failed to execute cwebp (" +:+ out +:+ "): " +:+ e)
     | None => None
     end,
     mkWorld fs' (locked_section (webpPath_of dir r) (cache w)) (rw w)
       (trace w ++ [EvExec "cwebp" (cwebp_args dir r)])).
Proof.
  rewrite store_set_eq. unfold locked_section, transform.
  destruct (acquire (webpPath_of dir r) (cache w)) as [mu c]. simpl.
  destruct (run_command E "cwebp" (cwebp_args dir r) (fs w)) as [[fs' out] err].
  reflexivity.
Qed.

(** The events [produce] adds: nothing when [url] is empty, otherwise the
    one GET of [fullURL_of], then at most one run of cwebp with the
    arguments [cwebp_args], and log lines. *)
Lemma produce_trace E dir o r w :
  ∃ evs,
    trace (produce E dir o r w) = trace w ++ evs
    ∧ gets evs
      = (if eqs (Url.Get (Url.ParseQuery (Url.RawQuery (r_URL r))) "url") ""
         then [] else [fullURL_of o r])
    ∧ (execs evs = [] ∨ execs evs = [("cwebp", cwebp_args dir r)]).
Proof.
  unfold produce.
  destruct (eqs (Url.Get (Url.ParseQuery (Url.RawQuery (r_URL r))) "url") "").
  { exists []. rewrite http_Error_trace, app_nil_r. auto. }
  destruct (client_Get E (fullURL_of o r)) as [err|res].
  { exists [EvGet (fullURL_of o r); EvLog ERRO err].
    rewrite fail500_trace. simpl. rewrite <- app_assoc. auto. }
  destruct (Os.OpenFile_rdwr_create _ _) as [err|fs1].
  { exists [EvGet (fullURL_of o r); EvLog ERRO err].
    rewrite fail500_trace. simpl. rewrite <- app_assoc. auto. }
  unfold copy_body. destruct (BodyErr res) as [err|].
  { exists [EvGet (fullURL_of o r); EvLog ERRO err].
    rewrite fail500_trace. simpl. rewrite <- app_assoc. auto. }
  rewrite store_set_transform. simpl.
  destruct (run_command E "cwebp" _ _) as [[fs' out] [err|]].
  { eexists [EvGet (fullURL_of o r); EvExec "cwebp" (cwebp_args dir r); EvLog ERRO _].
    rewrite fail500_trace. simpl. rewrite <- !app_assoc. auto. }
  simpl. destruct (Os.Open fs' _) as [err|webpFile].
  { exists [EvGet (fullURL_of o r); EvExec "cwebp" (cwebp_args dir r); EvLog ERRO err].
    rewrite fail500_trace. simpl. rewrite <- !app_assoc. auto. }
  destruct (writeWebp webpFile _) as [[err|] w'] eqn:Hw;
    pose proof (writeWebp_trace webpFile
      (mkWorld fs' (locked_section (webpPath_of dir r) (cache w)) (rw w)
         ((trace w ++ [EvGet (fullURL_of o r)])
          ++ [EvExec "cwebp" (cwebp_args dir r)]))) as Ht;
    rewrite Hw in Ht; simpl in Ht.
  { exists [EvGet (fullURL_of o r); EvExec "cwebp" (cwebp_args dir r); EvLog ERRO err].
    rewrite fail500_trace, Ht. rewrite <- !app_assoc. auto. }
  exists [EvGet (fullURL_of o r); EvExec "cwebp" (cwebp_args dir r)].
  rewrite Ht. rewrite <- !app_assoc. auto.
Qed.

(* ===================================================================== *)
(** ** The cache key *)
(* ===================================================================== *)

Lemma hex_decode_byte c s :
  Hex.decode (Hex.encode_byte c +:+ s) = c :: Hex.decode s.
Proof. destruct c as [[] [] [] [] [] [] [] []]; reflexivity. Qed.

Lemma hex_decode_encode l : Hex.decode (Hex.EncodeToString l) = l.
Proof.
  induction l as [|c l IH]; [reflexivity|].
  cbn [Hex.EncodeToString]. rewrite hex_decode_byte, IH. reflexivity.
Qed.

Lemma hex_EncodeToString_inj l l' :
  Hex.EncodeToString l = Hex.EncodeToString l' → l = l'.
Proof.
  intros H. rewrite <- (hex_decode_encode l), <- (hex_decode_encode l'), H.
  reflexivity.
Qed.

(** Two requests get the same key exactly when the digests of their
    concatenations [path ++ rawQuery] agree: the key tells requests apart
    by the concatenation only. *)
Lemma fingerprint_eq_iff p q p' q' :
  fingerprint p q = fingerprint p' q'
  ↔ Sha1.Sum (p +:+ q) = Sha1.Sum (p' +:+ q').
Proof.
  unfold fingerprint. split.
  - apply hex_EncodeToString_inj.
  - intros ->. reflexivity.
Qed.

(** The key is a function of the concatenation alone. *)
Lemma fingerprint_concat p q p' q' :
  p +:+ q = p' +:+ q' → fingerprint p q = fingerprint p' q'.
Proof. unfold fingerprint. intros ->. reflexivity. Qed.

(** C2.  The requests [GET /?url=/1&url=/2] and [GET /url=/1&?url=/2] are
    different (path, query) pairs, and ask for different origin assets
    ("/1" and "/2"), yet they have the same cache key, with no digest
    collision involved: the path and the query are hashed with nothing
    between them. *)
Theorem fingerprint_not_injective_on_pairs :
  ("/", "url=/1&url=/2") ≠ ("/url=/1&", "url=/2")
  ∧ Url.Get (Url.ParseQuery "url=/1&url=/2") "url" = "/1"
  ∧ Url.Get (Url.ParseQuery "url=/2") "url" = "/2"
  ∧ fingerprint "/" "url=/1&url=/2" = fingerprint "/url=/1&" "url=/2"
  ∧ webpPath_of Sample.cacheDir (Sample.request "/" "url=/1&url=/2")
    = webpPath_of Sample.cacheDir (Sample.request "/url=/1&" "url=/2").
Proof.
  split; [discriminate|]. split; [reflexivity|]. split; [reflexivity|].
  assert (H : fingerprint "/" "url=/1&url=/2" = fingerprint "/url=/1&" "url=/2")
    by (apply fingerprint_concat; reflexivity).
  split; [exact H|]. unfold webpPath_of. simpl. rewrite H. reflexivity.
Qed.

(* ===================================================================== *)
(** ** The response writer *)
(* ===================================================================== *)

Lemma append_empty_r s : s +:+ "" = s.
Proof.
  induction s as [|c s IH]; [reflexivity|].
  change (String c s +:+ "") with (String c (s +:+ "")). rewrite IH. reflexivity.
Qed.

Lemma eqs_true a b : eqs a b = true ↔ a = b.
Proof. unfold eqs. apply bool_decide_eq_true. Qed.

Lemma eqs_false a b : eqs a b = false ↔ a ≠ b.
Proof. unfold eqs. apply bool_decide_eq_false. Qed.

Lemma line_not_empty msg : eqs (msg +:+ RW.newline) "" = false.
Proof. apply eqs_false. destruct msg; discriminate. Qed.

Lemma Error_committed msg code rw :
  committed (RW.Error msg code rw)
  = match committed rw with
    | Some x => Some x
    | None => Some (code, error_header (header rw))
    end.
Proof.
  unfold RW.Error, RW.Write, RW.WriteHeader, RW.upd_header. simpl.
  rewrite line_not_empty.
  destruct (committed rw); simpl; destruct (conn_ok rw); reflexivity.
Qed.

Lemma Error_body msg code rw :
  body (RW.Error msg code rw)
  = if conn_ok rw then body rw +:+ msg +:+ RW.newline else body rw.
Proof.
  unfold RW.Error, RW.Write, RW.WriteHeader, RW.upd_header. simpl.
  rewrite line_not_empty.
  destruct (committed rw); simpl; destruct (conn_ok rw); reflexivity.
Qed.

Lemma Error_conn msg code rw : conn_ok (RW.Error msg code rw) = conn_ok rw.
Proof.
  unfold RW.Error, RW.Write, RW.WriteHeader, RW.upd_header. simpl.
  rewrite line_not_empty.
  destruct (committed rw); simpl; destruct (conn_ok rw); reflexivity.
Qed.

(** [io.Copy] to the response: it fails exactly when there are bytes to
    write and the connection does not take them; the first byte commits
    status 200 with the header map of that moment. *)
Lemma Copy_spec f rw :
  RW.Copy f rw
  = if eqs (h_data f) "" then (None, rw)
    else
      let c := match committed rw with
               | Some x => Some x
               | None => Some (200, header rw)
               end in
      if conn_ok rw
      then (None, mkRW (header rw) c (body rw +:+ h_data f) true)
      else (Some RW.errBrokenPipe, mkRW (header rw) c (body rw) false).
Proof.
  unfold RW.Copy, RW.Write, RW.WriteHeader.
  destruct (eqs (h_data f) ""); [reflexivity|].
  destruct rw as [h [x|] b []]; reflexivity.
Qed.

Lemma Copy_ok_body f rw :
  (RW.Copy f rw).1 = None → body (RW.Copy f rw).2 = body rw +:+ h_data f.
Proof.
  rewrite Copy_spec. destruct (eqs (h_data f) "") eqn:He.
  - intros _. apply eqs_true in He. rewrite He, append_empty_r. reflexivity.
  - destruct (conn_ok rw); [reflexivity | discriminate].
Qed.

Lemma wire_status_committed E rw code h :
  committed rw = Some (code, h) → wire_status E rw = code.
Proof.
  intros H. unfold wire_status, wire. rewrite H. simpl.
  destruct (h !! "Content-Type"); [reflexivity|].
  destruct (eqs (body rw) ""); reflexivity.
Qed.

Lemma wire_status_default E rw : committed rw = None → wire_status E rw = 200.
Proof.
  intros H. unfold wire_status, wire. rewrite H. simpl.
  destruct (header rw !! "Content-Type"); [reflexivity|].
  destruct (eqs (body rw) ""); reflexivity.
Qed.

(* ===================================================================== *)
(** ** The handler: cache lookup first *)
(* ===================================================================== *)

Lemma handler_miss E dir o r w e :
  (store_get (webpPath_of dir r) w).1 = inl e →
  handler E dir o r w
  = produce E dir o r
      (with_cache (locked_section (webpPath_of dir r) (cache w)) w).
Proof.
  unfold handler. rewrite store_get_eq. simpl. intros ->. reflexivity.
Qed.

Lemma handler_hit E dir o r w f :
  (store_get (webpPath_of dir r) w).1 = inr f →
  handler E dir o r w
  = let w1 := with_cache (locked_section (webpPath_of dir r) (cache w)) w in
    match writeWebp f w1 with
    | (Some err, w2) => produce E dir o r (log WARN err w2)
    | (None, w2) => w2
    end.
Proof.
  unfold handler. rewrite store_get_eq. simpl. intros ->. reflexivity.
Qed.

Lemma produce_no_url E dir o r w :
  Url.Get (Url.ParseQuery (Url.RawQuery (r_URL r))) "url" = "" →
  produce E dir o r w = http_Error "query `url` is emptry" StatusBadRequest w.
Proof. intros H. unfold produce. rewrite H. reflexivity. Qed.

Lemma writeWebp_spec f w :
  writeWebp f w
  = match RW.Copy f (rw w) with
    | (Some err, rw') => (Some err, with_rw rw' w)
    | (None, rw') =>
        (None, with_rw (RW.upd_header (Hdr.Add "content-type" "image/webp") rw') w)
    end.
Proof. reflexivity. Qed.

Lemma writeWebp_err_iff f w :
  (writeWebp f w).1 = (RW.Copy f (rw w)).1.
Proof.
  unfold writeWebp. destruct (RW.Copy f (rw w)) as [[e|] rw']; reflexivity.
Qed.

(** C1 (as amended).  When the artifact of the request is in the cache and
    can be opened, and copying it to the response succeeds, the handler
    sends exactly those bytes and ends there: the trace gets no event (no
    GET to the origin, no run of cwebp, no log line) and the file system
    is unchanged. *)
Theorem cache_hit_served_without_fetch :
  ∀ (E : Env) (dir : string) (o : Url.URL) (r : Request) (w : World) (f : Handle),
    (store_get (webpPath_of dir r) w).1 = inr f →
    (RW.Copy f (rw w)).1 = None →
    let w' := handler E dir o r w in
    body (rw w') = body (rw w) +:+ h_data f
    ∧ trace w' = trace w
    ∧ gets (trace w') = gets (trace w)
    ∧ execs (trace w') = execs (trace w)
    ∧ fs w' = fs w.
Proof.
  intros E dir o r w f Hget Hcopy w'. subst w'.
  rewrite (handler_hit _ _ _ _ _ _ Hget). cbv zeta.
  set (w1 := with_cache _ w).
  pose proof (writeWebp_err_iff f w1) as He.
  pose proof (writeWebp_trace f w1) as Ht.
  pose proof (writeWebp_fs f w1) as Hf.
  assert (Hb : body (rw (writeWebp f w1).2) = body (rw w) +:+ h_data f).
  { rewrite writeWebp_spec. change (rw w1) with (rw w).
    pose proof (Copy_ok_body f (rw w) Hcopy) as Hb.
    destruct (RW.Copy f (rw w)) as [[e|] rw']; [discriminate Hcopy|exact Hb]. }
  change (rw w1) with (rw w) in He. rewrite Hcopy in He.
  destruct (writeWebp f w1) as [[e|] w2]; [discriminate He|].
  simpl in *. rewrite Ht. auto.
Qed.

(** C1, counterexample to the unconditional statement: the artifact is in the cache and
    [store.get] returns it, but the client's connection is broken, so
    [writeWebp] fails, the handler falls through, and the origin is fetched
    and cwebp is run. *)
Lemma cache_hit_broken_connection_fetches :
  let r := Sample.request "/" "url=/a.png" in
  let path := webpPath_of Sample.cacheDir r in
  let w := Sample.world {[path := mkFile Sample.webp_bytes true true]} false in
  let w' := handler Sample.env Sample.cacheDir Sample.originalURL r w in
  (store_get path w).1 = inr (mkHandle path Sample.webp_bytes)
  ∧ gets (trace w') = ["http://img.example.com/a.png"]
  ∧ execs (trace w') = [("cwebp", cwebp_args Sample.cacheDir r)].
Proof. vm_compute. repeat split; reflexivity. Qed.

(** C1, an instance: the same request on a connection that takes the
    bytes. *)
Lemma cache_hit_served_witness :
  let r := Sample.request "/" "url=/a.png" in
  let path := webpPath_of Sample.cacheDir r in
  let w := Sample.world {[path := mkFile Sample.webp_bytes true true]} true in
  let w' := handler Sample.env Sample.cacheDir Sample.originalURL r w in
  (store_get path w).1 = inr (mkHandle path Sample.webp_bytes)
  ∧ body (rw w') = "" +:+ Sample.webp_bytes
  ∧ trace w' = [] ∧ gets (trace w') = [] ∧ execs (trace w') = []
  ∧ fs w' = {[path := mkFile Sample.webp_bytes true true]}.
Proof.
  intros r path w w'. split; [vm_compute; reflexivity|].
  apply (cache_hit_served_without_fetch Sample.env Sample.cacheDir
           Sample.originalURL r w (mkHandle path Sample.webp_bytes));
    vm_compute; reflexivity.
Defined.

(* ===================================================================== *)
(** ** The content type of a served artifact *)
(* ===================================================================== *)

(** C3.  [writeWebp] copies the artifact before it adds the header
    [content-type: image/webp].  On a response whose header is not written
    yet and a non-empty artifact, the first byte commits status 200 with the
    header map as it was; the header added afterwards is in the handler's
    map only and is not sent.  The content type on the wire is the one
    net/http sniffs from the first 512 bytes of the body. *)
Theorem writeWebp_adds_content_type_too_late :
  ∀ (E : Env) (f : Handle) (w : World),
    committed (rw w) = None →
    conn_ok (rw w) = true →
    h_data f ≠ "" →
    let w' := (writeWebp f w).2 in
    (writeWebp f w).1 = None
    ∧ body (rw w') = body (rw w) +:+ h_data f
    ∧ committed (rw w') = Some (200, header (rw w))
    ∧ header (rw w') = Hdr.Add "content-type" "image/webp" (header (rw w))
    ∧ (header (rw w) !! "Content-Type" = None →
       wire_header E (rw w') !! "Content-Type"
       = Some [DetectContentType E
                 (String.substring 0 512 (body (rw w) +:+ h_data f))]).
Proof.
  intros E f w Hc Hconn Hdata w'. subst w'.
  rewrite writeWebp_spec, Copy_spec.
  apply eqs_false in Hdata. rewrite Hdata, Hc, Hconn. simpl.
  repeat split.
  intros Hct. unfold wire_header, wire. simpl. rewrite Hct.
  assert (Hne : eqs (body (rw w) +:+ h_data f) "" = false).
  { apply eqs_false. apply eqs_false in Hdata.
    destruct (body (rw w)); [exact Hdata | discriminate]. }
  rewrite Hne. simpl. apply lookup_insert_eq.
Qed.

(** C3 at a failing input: the cache holds the five bytes "hello" under the
    key of the request.  The response is 200 with those bytes and the
    sniffed content type "text/plain; charset=utf-8", not "image/webp". *)
Lemma cached_text_served_as_text_witness :
  let r := Sample.request "/" "url=/a.png" in
  let path := webpPath_of Sample.cacheDir r in
  let w := Sample.world {[path := mkFile "hello" true true]} true in
  let w' := handler Sample.env Sample.cacheDir Sample.originalURL r w in
  wire Sample.env (rw w')
  = (200, {["Content-Type" := ["text/plain; charset=utf-8"]]}, "hello")
  ∧ Hdr.Get "content-type" (header (rw w')) = "image/webp"
  ∧ (writeWebp (mkHandle path "hello") w).1 = None
  ∧ committed (rw (writeWebp (mkHandle path "hello") w).2) = Some (200, ∅).
Proof.
  intros r path w w'.
  split; [vm_compute; reflexivity|]. split; [vm_compute; reflexivity|].
  destruct (writeWebp_adds_content_type_too_late Sample.env
              (mkHandle path "hello") w eq_refl eq_refl)
    as (H1 & _ & H3 & _); [discriminate|].
  split; [exact H1 | exact H3].
Defined.

(* ===================================================================== *)
(** ** Requests without [url] *)
(* ===================================================================== *)

Lemma gets_log t lvl msg : gets (t ++ [EvLog lvl msg]) = gets t.
Proof. rewrite gets_app. simpl. apply app_nil_r. Qed.

Lemma execs_log t lvl msg : execs (t ++ [EvLog lvl msg]) = execs t.
Proof. rewrite execs_app. simpl. apply app_nil_r. Qed.

Lemma execs_get t u : execs (t ++ [EvGet u]) = execs t.
Proof. rewrite execs_app. simpl. apply app_nil_r. Qed.

(** A cache miss on a request without [url]: [http.Error] with status
    400 is all that happens. *)
Lemma no_url_miss_response E dir o r w e :
  Url.Get (Url.ParseQuery (Url.RawQuery (r_URL r))) "url" = "" →
  (store_get (webpPath_of dir r) w).1 = inl e →
  committed (rw w) = None →
  committed (rw (handler E dir o r w))
  = Some (StatusBadRequest, error_header (header (rw w)))
  ∧ wire_status E (rw (handler E dir o r w)) = StatusBadRequest
  ∧ trace (handler E dir o r w) = trace w.
Proof.
  intros Hurl Hget Hc.
  rewrite (handler_miss _ _ _ _ _ _ Hget), (produce_no_url _ _ _ _ _ Hurl).
  assert (Hcm : committed (rw (http_Error "query `url` is emptry" StatusBadRequest
                  (with_cache (locked_section (webpPath_of dir r) (cache w)) w)))
                = Some (StatusBadRequest, error_header (header (rw w)))).
  { unfold http_Error. simpl. rewrite Error_committed. simpl.
    rewrite Hc. reflexivity. }
  split; [exact Hcm|]. split; [|reflexivity].
  eapply wire_status_committed. exact Hcm.
Qed.

(** C4 (as amended).  A request whose [url] parameter is absent or empty
    never writes to the file system, never fetches from the origin and
    never runs cwebp; and when the cache lookup finds no artifact it is
    answered with status 400 and nothing is logged. *)
Theorem no_url_no_side_effect_and_400_on_miss :
  ∀ (E : Env) (dir : string) (o : Url.URL) (r : Request) (w : World),
    Url.Get (Url.ParseQuery (Url.RawQuery (r_URL r))) "url" = "" →
    let w' := handler E dir o r w in
    fs w' = fs w
    ∧ gets (trace w') = gets (trace w)
    ∧ execs (trace w') = execs (trace w)
    ∧ (∀ e, (store_get (webpPath_of dir r) w).1 = inl e →
            committed (rw w) = None →
            committed (rw w') = Some (StatusBadRequest, error_header (header (rw w)))
            ∧ wire_status E (rw w') = StatusBadRequest
            ∧ trace w' = trace w).
Proof.
  intros E dir o r w Hurl w'. subst w'.
  destruct (store_get (webpPath_of dir r) w).1 as [e|f] eqn:Hget.
  - split; [|split; [|split]].
    + rewrite (handler_miss _ _ _ _ _ _ Hget), (produce_no_url _ _ _ _ _ Hurl).
      reflexivity.
    + rewrite (handler_miss _ _ _ _ _ _ Hget), (produce_no_url _ _ _ _ _ Hurl).
      reflexivity.
    + rewrite (handler_miss _ _ _ _ _ _ Hget), (produce_no_url _ _ _ _ _ Hurl).
      reflexivity.
    + intros e' _ Hc. apply (no_url_miss_response E dir o r w e Hurl Hget Hc).
  - rewrite (handler_hit _ _ _ _ _ _ Hget). cbv zeta.
    set (w1 := with_cache _ w).
    pose proof (writeWebp_trace f w1) as Ht.
    pose proof (writeWebp_fs f w1) as Hf.
    destruct (writeWebp f w1) as [[err|] w2]; simpl in Ht, Hf.
    + rewrite (produce_no_url _ _ _ _ _ Hurl).
      rewrite http_Error_fs, http_Error_trace. unfold log, emit. simpl.
      rewrite Ht, Hf, gets_log, execs_log.
      split; [reflexivity|]. split; [reflexivity|]. split; [reflexivity|].
      intros e H. discriminate H.
    + rewrite Ht, Hf.
      split; [reflexivity|]. split; [reflexivity|]. split; [reflexivity|].
      intros e H. discriminate H.
Qed.

(** C4, counterexample to the unconditional statement: the request has no [url], but the cache
    holds a file under its key, and the answer is 200 with that file. *)
Lemma no_url_cache_hit_is_200 :
  let r := Sample.request "/" "w=10" in
  let path := webpPath_of Sample.cacheDir r in
  let w := Sample.world {[path := mkFile Sample.webp_bytes true true]} true in
  let w' := handler Sample.env Sample.cacheDir Sample.originalURL r w in
  Url.Get (Url.ParseQuery (Url.RawQuery (r_URL r))) "url" = ""
  ∧ wire_status Sample.env (rw w') = 200
  ∧ body (rw w') = Sample.webp_bytes.
Proof. vm_compute. repeat split; reflexivity. Qed.

(** C4, an instance: the same request on an empty cache. *)
Lemma no_url_400_witness :
  let r := Sample.request "/" "w=10" in
  let w := Sample.world ∅ true in
  let w' := handler Sample.env Sample.cacheDir Sample.originalURL r w in
  fs w' = ∅ ∧ gets (trace w') = [] ∧ execs (trace w') = []
  ∧ wire_status Sample.env (rw w') = 400
  ∧ body (rw w') = "query `url` is emptry" +:+ RW.newline.
Proof.
  intros r w w'.
  destruct (no_url_no_side_effect_and_400_on_miss Sample.env Sample.cacheDir
              Sample.originalURL r w eq_refl) as (H1 & H2 & H3 & H4).
  destruct (H4 errKeyNotFound eq_refl eq_refl) as (_ & H5 & _).
  split; [exact H1|]. split; [exact H2|]. split; [exact H3|].
  split; [exact H5|]. vm_compute. reflexivity.
Defined.

(** The answer to a request without [url] when [store.get] returned the
    artifact [f], on a response writer nothing was written to. *)
Lemma no_url_hit_response E dir o r files c tr conn f :
  Url.Get (Url.ParseQuery (Url.RawQuery (r_URL r))) "url" = "" →
  let w := mkWorld files c (RW.fresh conn) tr in
  (store_get (webpPath_of dir r) w).1 = inr f →
  wire_status E (rw (handler E dir o r w)) = 200
  ∧ body (rw (handler E dir o r w)) = (if conn then h_data f else "").
Proof.
  intros Hurl w Hget. rewrite (handler_hit _ _ _ _ _ _ Hget). cbv zeta.
  rewrite writeWebp_spec, Copy_spec. simpl.
  destruct (eqs (h_data f) "") eqn:He.
  - apply eqs_true in He. simpl. split.
    + apply wire_status_default. reflexivity.
    + rewrite He. destruct conn; reflexivity.
  - destruct conn; simpl.
    + split; [|reflexivity].
      eapply wire_status_committed. reflexivity.
    + rewrite (produce_no_url _ _ _ _ _ Hurl). unfold http_Error. simpl. split.
      * eapply wire_status_committed. rewrite Error_committed. reflexivity.
      * rewrite ?Error_body. reflexivity.
Qed.

(** C9.  The cache lookup comes before the check of [url].  A request
    without [url] whose key has a cache file that opens is answered with
    status 200, and the body sent is that file (all of it when the
    connection takes the bytes, nothing otherwise); status 400 is the
    answer exactly when [store.get] found no artifact to serve. *)
Theorem cache_lookup_precedes_url_check :
  ∀ (E : Env) (dir : string) (o : Url.URL) (r : Request)
    (files : FS) (c : store) (tr : list event) (conn : bool),
    Url.Get (Url.ParseQuery (Url.RawQuery (r_URL r))) "url" = "" →
    let w := mkWorld files c (RW.fresh conn) tr in
    let w' := handler E dir o r w in
    (∀ f, (store_get (webpPath_of dir r) w).1 = inr f →
          wire_status E (rw w') = 200
          ∧ body (rw w') = (if conn then h_data f else ""))
    ∧ (wire_status E (rw w') = StatusBadRequest
       ↔ ∃ e, (store_get (webpPath_of dir r) w).1 = inl e).
Proof.
  intros E dir o r files c tr conn Hurl w w'. subst w'. split.
  - intros f Hget. apply (no_url_hit_response E dir o r files c tr conn f Hurl Hget).
  - destruct (store_get (webpPath_of dir r) w).1 as [e|f] eqn:Hget.
    + split; [intros _; eauto|]. intros _.
      destruct (no_url_miss_response E dir o r w e Hurl Hget eq_refl)
        as (_ & Hs & _). exact Hs.
    + destruct (no_url_hit_response E dir o r files c tr conn f Hurl Hget) as [Hs _].
      split.
      * intros H. fold w in Hs. rewrite Hs in H. discriminate H.
      * intros [e He]. discriminate He.
Qed.

(** C9, an instance: no [url], the cache holds a file under the key. *)
Lemma cache_lookup_precedes_witness :
  let r := Sample.request "/" "w=10" in
  let path := webpPath_of Sample.cacheDir r in
  let w := Sample.world {[path := mkFile Sample.webp_bytes true true]} true in
  let w' := handler Sample.env Sample.cacheDir Sample.originalURL r w in
  wire_status Sample.env (rw w') = 200 ∧ body (rw w') = Sample.webp_bytes.
Proof.
  intros r path w w'.
  destruct (cache_lookup_precedes_url_check Sample.env Sample.cacheDir
              Sample.originalURL r {[path := mkFile Sample.webp_bytes true true]}
              (newStore Sample.cacheDir) [] true eq_refl) as [H _].
  apply (H (mkHandle path Sample.webp_bytes)). vm_compute. reflexivity.
Defined.

(* ===================================================================== *)
(** ** The URL fetched from the origin *)
(* ===================================================================== *)

Lemma Contains_app s t c :
  Strings.Contains (s +:+ t) c = Strings.Contains s c || Strings.Contains t c.
Proof.
  induction s as [|x s IH]; [reflexivity|].
  change (String x s +:+ t) with (String x (s +:+ t)).
  cbn [Strings.Contains]. rewrite IH, orb_assoc. reflexivity.
Qed.








(* ===================================================================== *)
(** ** The fetch step and the call of cwebp *)
(* ===================================================================== *)

Lemma write_at_start_lookup fs path p f :
  fs !! path = Some f →
  Os.write_at_start fs path p !! path
  = Some (mkFile (p +:+ Os.drop (String.length p) (data f)) (readable f) (writable f)).
Proof. intros H. unfold Os.write_at_start. rewrite H. apply lookup_insert_eq. Qed.

(** After a successful [os.OpenFile] there is a file at the path. *)
Lemma OpenFile_lookup fs path fs1 :
  Os.OpenFile_rdwr_create fs path = inr fs1 →
  ∃ f, fs1 !! path = Some f
       ∧ (fs !! path = None ∧ f = mkFile "" true true ∧ fs1 = <[path := f]> fs
          ∨ fs !! path = Some f ∧ fs1 = fs).
Proof.
  unfold Os.OpenFile_rdwr_create. destruct (fs !! path) as [f|] eqn:Hf.
  - destruct (readable f && writable f); [|discriminate].
    intros H. injection H as <-. exists f. auto.
  - intros H. injection H as <-. eexists. split; [apply lookup_insert_eq|]. auto.
Qed.

(** Once the origin answered, the scratch file opened and the body was
    read to its end, [produce] runs cwebp on the file system that holds the
    body, and nothing after that changes the file system. *)
Lemma produce_reaches_cwebp E dir o r w res fs1 :
  Url.Get (Url.ParseQuery (Url.RawQuery (r_URL r))) "url" ≠ "" →
  client_Get E (fullURL_of o r) = inr res →
  Os.OpenFile_rdwr_create (fs w) (origPath_of dir r) = inr fs1 →
  BodyErr res = None →
  execs (trace (produce E dir o r w))
  = execs (trace w) ++ [("cwebp", cwebp_args dir r)]
  ∧ fs (produce E dir o r w)
    = (run_command E "cwebp" (cwebp_args dir r)
         (Os.write_at_start fs1 (origPath_of dir r) (Body res))).1.1.
Proof.
  intros Hne Hget Hopen Hbody. apply eqs_false in Hne.
  unfold produce. rewrite Hne, Hget. simpl. rewrite Hopen.
  unfold copy_body. rewrite Hbody. rewrite store_set_transform. simpl.
  destruct (run_command E "cwebp" _ _) as [[fs' out] [err|]]; simpl.
  { rewrite !execs_app. simpl. rewrite app_nil_r, app_nil_r. auto. }
  destruct (Os.Open fs' _) as [err|webpFile].
  { rewrite fail500_trace, fail500_fs. simpl.
    rewrite !execs_app. simpl. rewrite app_nil_r, app_nil_r. auto. }
  match goal with |- context [writeWebp webpFile ?w0] =>
    pose proof (writeWebp_trace webpFile w0) as Ht;
    pose proof (writeWebp_fs webpFile w0) as Hf;
    destruct (writeWebp webpFile w0) as [[err|] w2] end; simpl in Ht, Hf.
  - rewrite fail500_trace, fail500_fs, Ht, Hf.
    rewrite !execs_app. simpl. rewrite app_nil_r, app_nil_r. auto.
  - rewrite Ht, Hf. rewrite !execs_app. simpl. rewrite app_nil_r. auto.
Qed.

(** When the fetch step fails, [produce] answers with [fail500] after the
    GET: status 500 on a response not yet written, no run of cwebp. *)
Lemma fail500_status E err w :
  committed (rw w) = None →
  wire_status E (rw (fail500 err w)) = StatusInternalServerError.
Proof.
  intros Hc. eapply wire_status_committed. unfold fail500, http_Error. simpl.
  rewrite Error_committed. simpl. rewrite Hc. reflexivity.
Qed.

(** C6 (as amended).  On a cache miss with a non-empty [url], the request
    ends at the fetch step with status 500 and without a run of cwebp in
    three cases: [client.Get] fails (transport), the scratch file cannot be
    opened, or reading the body fails.  In every other case, whatever the
    status code of the origin's response, the whole body is at the start of
    the scratch file and cwebp is run on the file system that holds it. *)
Theorem fetch_step_fails_or_feeds_cwebp :
  ∀ (E : Env) (dir : string) (o : Url.URL) (r : Request) (w : World) (e : string),
    (store_get (webpPath_of dir r) w).1 = inl e →
    Url.Get (Url.ParseQuery (Url.RawQuery (r_URL r))) "url" ≠ "" →
    committed (rw w) = None →
    let w' := handler E dir o r w in
    let orig := origPath_of dir r in
    (∀ err, client_Get E (fullURL_of o r) = inl err →
       wire_status E (rw w') = StatusInternalServerError
       ∧ fs w' = fs w ∧ execs (trace w') = execs (trace w))
    ∧ (∀ res err,
         client_Get E (fullURL_of o r) = inr res →
         Os.OpenFile_rdwr_create (fs w) orig = inl err →
         wire_status E (rw w') = StatusInternalServerError
         ∧ fs w' = fs w ∧ execs (trace w') = execs (trace w))
    ∧ (∀ res fs1 err,
         client_Get E (fullURL_of o r) = inr res →
         Os.OpenFile_rdwr_create (fs w) orig = inr fs1 →
         BodyErr res = Some err →
         wire_status E (rw w') = StatusInternalServerError
         ∧ fs w' = Os.write_at_start fs1 orig (Body res)
         ∧ execs (trace w') = execs (trace w))
    ∧ (∀ res fs1,
         client_Get E (fullURL_of o r) = inr res →
         Os.OpenFile_rdwr_create (fs w) orig = inr fs1 →
         BodyErr res = None →
         (∃ f old,
            Os.write_at_start fs1 orig (Body res) !! orig = Some f
            ∧ data f = Body res +:+ Os.drop (String.length (Body res)) old)
         ∧ execs (trace w') = execs (trace w) ++ [("cwebp", cwebp_args dir r)]
         ∧ fs w'
           = (run_command E "cwebp" (cwebp_args dir r)
                (Os.write_at_start fs1 orig (Body res))).1.1).
Proof.
  intros E dir o r w e Hmiss Hne Hc w' orig. subst w'.
  rewrite (handler_miss _ _ _ _ _ _ Hmiss).
  set (w1 := with_cache _ w).
  assert (Hc1 : committed (rw w1) = None) by exact Hc.
  pose proof Hne as Hne'. apply eqs_false in Hne'.
  split; [|split; [|split]].
  - intros err Hget. unfold produce. rewrite Hne', Hget.
    rewrite fail500_fs, fail500_trace, execs_log. unfold emit. simpl.
    rewrite execs_get.
    split; [apply fail500_status; exact Hc1 | auto].
  - intros res err Hget Hopen. unfold produce. rewrite Hne', Hget. simpl.
    fold orig. rewrite Hopen.
    rewrite fail500_fs, fail500_trace, execs_log. unfold emit. simpl.
    rewrite execs_get.
    split; [apply fail500_status; exact Hc1 | auto].
  - intros res fs1 err Hget Hopen Hbody. unfold produce.
    rewrite Hne', Hget. simpl. fold orig.
    rewrite Hopen. unfold copy_body. rewrite Hbody.
    rewrite fail500_fs, fail500_trace, execs_log. simpl.
    rewrite execs_get.
    split; [apply fail500_status; exact Hc1 | auto].
  - intros res fs1 Hget Hopen Hbody. split.
    + destruct (OpenFile_lookup _ _ _ Hopen) as (f & Hf & _).
      eexists _, (data f). split; [apply write_at_start_lookup; exact Hf|].
      reflexivity.
    + apply (produce_reaches_cwebp E dir o r w1 res fs1 Hne Hget Hopen Hbody).
Qed.

(** C6, counterexample to the unconditional statement: the origin answers 200 with a body, but
    a file that may not be written is in the way of the scratch file.  The
    fetch step ends the request with status 500; the body is not written
    and cwebp is not run. *)
Lemma response_received_but_scratch_unwritable :
  let r := Sample.request "/" "url=/a.png" in
  let orig := origPath_of Sample.cacheDir r in
  let w := Sample.world {[orig := mkFile "old" true false]} true in
  let w' := handler Sample.env Sample.cacheDir Sample.originalURL r w in
  client_Get Sample.env (fullURL_of Sample.originalURL r)
  = inr (mkResponse 200 "PNG" None)
  ∧ wire_status Sample.env (rw w') = 500
  ∧ fs w' = {[orig := mkFile "old" true false]}
  ∧ execs (trace w') = [].
Proof. vm_compute. repeat split; reflexivity. Qed.

(** C6, an instance: the origin answers 404 with an error page; the page
    is written to the scratch file and cwebp is run on it. *)
Lemma upstream_404_is_transformed_witness :
  let E := mkEnv (Sample.origin_answers 404 "not found") Sample.cwebp_ok Sample.sniff in
  let r := Sample.request "/" "url=/a.png" in
  let orig := origPath_of Sample.cacheDir r in
  let w := Sample.world ∅ true in
  let w' := handler E Sample.cacheDir Sample.originalURL r w in
  fs w' !! orig = Some (mkFile "not found" true true)
  ∧ execs (trace w') = [] ++ [("cwebp", cwebp_args Sample.cacheDir r)].
Proof.
  intros E r orig w w'.
  destruct (fetch_step_fails_or_feeds_cwebp E Sample.cacheDir Sample.originalURL
              r w errKeyNotFound) as (_ & _ & _ & H);
    [vm_compute; reflexivity | discriminate | reflexivity |].
  destruct (H (mkResponse 404 "not found" None)
              {[orig := mkFile "" true true]}) as (_ & Hx & _);
    [reflexivity | vm_compute; reflexivity | reflexivity |].
  split; [vm_compute; reflexivity | exact Hx].
Defined.

Lemma Get_absent (v : Url.Values) key : v !! key = None → Url.Get v key = "".
Proof. intros H. unfold Url.Get. rewrite H. reflexivity. Qed.

(** Every run of a program by the handler is one run of cwebp with the
    arguments [cwebp_args]. *)
Lemma handler_execs E dir o r w :
  ∃ evs, trace (handler E dir o r w) = trace w ++ evs
         ∧ (execs evs = [] ∨ execs evs = [("cwebp", cwebp_args dir r)]).
Proof.
  assert (Hp : ∀ w0, ∃ evs,
             trace (produce E dir o r w0) = trace w0 ++ evs
             ∧ (execs evs = [] ∨ execs evs = [("cwebp", cwebp_args dir r)])).
  { intros w0. destruct (produce_trace E dir o r w0) as (evs & Ht & _ & Hx).
    exists evs. auto. }
  destruct (store_get (webpPath_of dir r) w).1 as [e|f] eqn:Hget.
  - rewrite (handler_miss _ _ _ _ _ _ Hget).
    exact (Hp (with_cache (locked_section (webpPath_of dir r) (cache w)) w)).
  - rewrite (handler_hit _ _ _ _ _ _ Hget). cbv zeta.
    set (w1 := with_cache _ w).
    pose proof (writeWebp_trace f w1) as Ht.
    destruct (writeWebp f w1) as [[err|] w2]; simpl in Ht.
    + destruct (Hp (log WARN err w2)) as (evs & Hevs & Hx).
      exists (EvLog WARN err :: evs). split; [|exact Hx].
      rewrite Hevs. unfold log, emit. simpl. rewrite Ht, <- app_assoc. reflexivity.
    + exists []. rewrite app_nil_r. auto.
Qed.

(** C10.  When the request has no [q] parameter, the argument that follows
    "-q" in every run of cwebp is the empty string, while an absent [w] or
    [h] is passed as "0"; and on a cache miss where the origin answered
    and the scratch file was written, cwebp is run with these arguments. *)
Theorem quality_parameter_has_no_default :
  ∀ (E : Env) (dir : string) (o : Url.URL) (r : Request) (w : World),
    let query := Url.ParseQuery (Url.RawQuery (r_URL r)) in
    query !! "q" = None →
    let w' := handler E dir o r w in
    let args := ["-quiet"; "-q"; ""; "-resize";
                 or_zero (Url.Get query "w"); or_zero (Url.Get query "h");
                 origPath_of dir r; "-o"; webpPath_of dir r] in
    (∃ evs, trace w' = trace w ++ evs
            ∧ (execs evs = [] ∨ execs evs = [("cwebp", args)]))
    ∧ (∀ e res fs1,
         (store_get (webpPath_of dir r) w).1 = inl e →
         Url.Get query "url" ≠ "" →
         client_Get E (fullURL_of o r) = inr res →
         Os.OpenFile_rdwr_create (fs w) (origPath_of dir r) = inr fs1 →
         BodyErr res = None →
         execs (trace w') = execs (trace w) ++ [("cwebp", args)])
    ∧ (query !! "w" = None → or_zero (Url.Get query "w") = "0")
    ∧ (query !! "h" = None → or_zero (Url.Get query "h") = "0").
Proof.
  intros E dir o r w query Hq w' args. subst w'.
  assert (Hargs : cwebp_args dir r = args).
  { unfold cwebp_args, args. fold query. rewrite (Get_absent _ _ Hq). reflexivity. }
  rewrite <- Hargs. split; [apply handler_execs|]. split; [|split].
  - intros e res fs1 Hmiss Hne Hget Hopen Hbody.
    rewrite (handler_miss _ _ _ _ _ _ Hmiss).
    exact (proj1 (produce_reaches_cwebp E dir o r
                    (with_cache (locked_section (webpPath_of dir r) (cache w)) w)
                    res fs1 Hne Hget Hopen Hbody)).
  - intros H. rewrite (Get_absent _ _ H). reflexivity.
  - intros H. rewrite (Get_absent _ _ H). reflexivity.
Qed.

(** C10, an instance: a request with [url] and [w] only. *)
Lemma quality_empty_witness :
  let r := Sample.request "/" "url=/a.png&w=300" in
  let w := Sample.world ∅ true in
  let w' := handler Sample.env Sample.cacheDir Sample.originalURL r w in
  execs (trace w')
  = [] ++ [("cwebp", ["-quiet"; "-q"; ""; "-resize"; "300"; "0";
                      origPath_of Sample.cacheDir r; "-o";
                      webpPath_of Sample.cacheDir r])].
Proof.
  intros r w w'.
  destruct (quality_parameter_has_no_default Sample.env Sample.cacheDir
              Sample.originalURL r w) as (_ & H & _);
    [vm_compute; reflexivity|].
  apply (H errKeyNotFound (mkResponse 200 "PNG" None)
           {[origPath_of Sample.cacheDir r := mkFile "" true true]});
    first [discriminate | vm_compute; reflexivity].
Defined.

(* ===================================================================== *)
(** ** The handler on whole requests *)
(* ===================================================================== *)

(** A first request on an empty cache: one GET, one run of cwebp, both
    files on disk, and a 200 whose content type is the sniffed one. *)
Example first_request_produces :
  let r := Sample.request "/" "url=/a.png&w=300" in
  let w' := handler Sample.env Sample.cacheDir Sample.originalURL r
              (Sample.world ∅ true) in
  gets (trace w') = ["http://img.example.com/a.png"]
  ∧ fs w' !! origPath_of Sample.cacheDir r = Some (mkFile "PNG" true true)
  ∧ fs w' !! webpPath_of Sample.cacheDir r
    = Some (mkFile Sample.webp_bytes true true)
  ∧ wire Sample.env (rw w')
    = (200, {["Content-Type" := ["image/webp"]]}, Sample.webp_bytes).
Proof. vm_compute. repeat split; reflexivity. Qed.

(** The same request again: served from the cache, nothing else happens,
    and the store still has the one mutex of the key. *)
Example second_request_is_a_hit :
  let r := Sample.request "/" "url=/a.png&w=300" in
  let w1 := handler Sample.env Sample.cacheDir Sample.originalURL r
              (Sample.world ∅ true) in
  let w2 := handler Sample.env Sample.cacheDir Sample.originalURL r
              (mkWorld (fs w1) (cache w1) (RW.fresh true) []) in
  trace w2 = [] ∧ body (rw w2) = Sample.webp_bytes ∧ fs w2 = fs w1
  ∧ m (cache w2) = m (cache w1).
Proof. vm_compute. repeat split; reflexivity. Qed.

(** Two requests with the same concatenation of path and query share the
    cache file: after [GET /?url=/1&url=/2] (asset "/1"), the request
    [GET /url=/1&?url=/2] (asset "/2") is answered from the cache, without
    a GET to the origin. *)
Example colliding_requests_share_the_artifact :
  let rA := Sample.request "/" "url=/1&url=/2" in
  let rB := Sample.request "/url=/1&" "url=/2" in
  let wA := handler Sample.env Sample.cacheDir Sample.originalURL rA
              (Sample.world ∅ true) in
  let wB := handler Sample.env Sample.cacheDir Sample.originalURL rB
              (mkWorld (fs wA) (cache wA) (RW.fresh true) []) in
  gets (trace wA) = ["http://img.example.com/1"]
  ∧ fullURL_of Sample.originalURL rB = "http://img.example.com/2"
  ∧ gets (trace wB) = []
  ∧ body (rw wB) = Sample.webp_bytes.
Proof. vm_compute. repeat split; reflexivity. Qed.

(** A url parameter with a query of its own: the "?" is escaped, the
    origin gets a path and no query. *)
Example url_param_with_question_mark :
  let r := Sample.request "/" "url=/a.png%3Fsize%3Dbig&w=300" in
  fullURL_of Sample.originalURL r = "http://img.example.com/a.png%3Fsize=big".
Proof. vm_compute. reflexivity. Qed.

(* ===================================================================== *)
(** ** The store: locks are released, the table only gains the key *)
(* ===================================================================== *)

Lemma alter_pred_S (l : list nat) : ∀ i, alter pred i (alter S i l) = l.
Proof.
  induction l as [|x l IH]; intros [|i]; simpl; try reflexivity.
  f_equal. apply IH.
Qed.

Lemma RUnlock_RLock mu s : RUnlock mu (RLock mu s) = s.
Proof.
  unfold RUnlock, RLock. destruct s as [t h]. simpl.
  rewrite alter_pred_S. reflexivity.
Qed.

Lemma locked_section_eq key s :
  locked_section key s = mkStore (table_after key s) (rwmutexes s ++ [0]).
Proof.
  unfold locked_section, acquire, new_RWMutex, LoadOrStore, table_after. simpl.
  destruct (m s !! key); rewrite RUnlock_RLock; reflexivity.
Qed.

Lemma readers_RLock mu s :
  mu < length (rwmutexes s) → readers mu (RLock mu s) = S (readers mu s).
Proof.
  intros H. unfold readers, RLock. simpl. rewrite list_lookup_alter_eq.
  destruct (lookup_lt_is_Some_2 _ _ H) as [x ->]. reflexivity.
Qed.

Lemma readers_RLock_other mu mu' s :
  mu ≠ mu' → readers mu' (RLock mu s) = readers mu' s.
Proof.
  intros H. unfold readers, RLock. simpl.
  rewrite list_lookup_alter_ne by exact H. reflexivity.
Qed.

Lemma acquire_valid key s :
  store_wf s →
  (acquire key s).1 < length (rwmutexes (acquire key s).2)
  ∧ readers (acquire key s).1 (acquire key s).2 = readers (acquire key s).1 s.
Proof.
  intros Hwf. unfold acquire, new_RWMutex, LoadOrStore, readers. simpl.
  destruct (m s !! key) as [mu|] eqn:Hk; simpl.
  - pose proof (Hwf _ _ Hk) as Hlt. rewrite length_app. simpl.
    split; [lia|]. rewrite lookup_app_l by exact Hlt. reflexivity.
  - rewrite length_app. simpl. split; [lia|].
    rewrite lookup_app_r by lia. rewrite Nat.sub_diag. simpl.
    rewrite lookup_ge_None_2 by lia. reflexivity.
Qed.

Lemma table_after_wf key s :
  store_wf s → store_wf (mkStore (table_after key s) (rwmutexes s ++ [0])).
Proof.
  intros Hwf k mu. unfold table_after. simpl. rewrite length_app. simpl.
  destruct (m s !! key) eqn:Hk.
  - intros H. pose proof (Hwf _ _ H). lia.
  - destruct (decide (key = k)) as [->|Hne].
    + rewrite lookup_insert_eq. intros H. injection H as <-. lia.
    + rewrite lookup_insert_ne by exact Hne. intros H. pose proof (Hwf _ _ H). lia.
Qed.

(** X1.  [store.get], whatever it returns (the handle or "key not found"),
    makes [path] a key of the lock table: an existing entry is kept, a new
    key gets the mutex this call allocated.  The call allocates one mutex,
    releases its read lock before returning (no read count has changed),
    and touches neither the file system, nor the response, nor the
    trace. *)
Theorem store_get_store_effect :
  ∀ (path : string) (w : World),
    let w' := (store_get path w).2 in
    m (cache w') = table_after path (cache w)
    ∧ is_Some (m (cache w') !! path)
    ∧ rwmutexes (cache w') = rwmutexes (cache w) ++ [0]
    ∧ (∀ mu, readers mu (cache w') = readers mu (cache w))
    ∧ fs w' = fs w ∧ rw w' = rw w ∧ trace w' = trace w.
Proof.
  intros path w w'. subst w'. rewrite store_get_eq. simpl.
  rewrite locked_section_eq. simpl.
  split; [reflexivity|]. split.
  - unfold table_after. destruct (m (cache w) !! path) eqn:Hk.
    + rewrite Hk. eauto.
    + rewrite lookup_insert_eq. eauto.
  - split; [reflexivity|]. split; [|auto].
    intros mu. unfold readers. simpl.
    destruct (decide (mu < length (rwmutexes (cache w)))) as [Hlt|Hge].
    + rewrite lookup_app_l by exact Hlt. reflexivity.
    + rewrite lookup_app_r by lia.
      rewrite (lookup_ge_None_2 (rwmutexes (cache w))) by lia.
      destruct (mu - length (rwmutexes (cache w))) as [|n]; reflexivity.
Qed.

(** X2.  [store.set] runs the callback once, with the read lock of the
    key's mutex held (one reader more than before the call), returns the
    callback's error as it is, and releases the lock afterwards, also when
    the callback failed. *)
Theorem store_set_runs_callback_locked :
  ∀ (key : string) (f : World → option string * World) (w : World),
    store_wf (cache w) →
    let mu := (acquire key (cache w)).1 in
    let w_in := with_cache (RLock mu (acquire key (cache w)).2) w in
    m (cache w_in) !! key = Some mu
    ∧ readers mu (cache w_in) = S (readers mu (cache w))
    ∧ (store_set key f w).1 = (f w_in).1
    ∧ fs (store_set key f w).2 = fs (f w_in).2
    ∧ rw (store_set key f w).2 = rw (f w_in).2
    ∧ trace (store_set key f w).2 = trace (f w_in).2
    ∧ cache (store_set key f w).2 = RUnlock mu (cache (f w_in).2)
    ∧ (cache (f w_in).2 = cache w_in →
       cache (store_set key f w).2
       = mkStore (table_after key (cache w)) (rwmutexes (cache w) ++ [0])).
Proof.
  intros key f w Hwf mu w_in.
  destruct (acquire_valid key (cache w) Hwf) as [Hlt Hr].
  split; [apply acquire_lookup|]. split.
  { subst w_in mu. simpl. rewrite readers_RLock by exact Hlt. rewrite Hr. reflexivity. }
  rewrite store_set_eq. subst w_in mu.
  pose proof (locked_section_eq key (cache w)) as Hls. unfold locked_section in Hls.
  destruct (acquire key (cache w)) as [mu c]. simpl in *.
  destruct (f (with_cache (RLock mu c) w)) as [err w2]. simpl.
  repeat split. intros ->. simpl. exact Hls.
Qed.

(** X2, an instance: a callback that fails on a new store. *)
Lemma store_set_witness :
  let f := fun w : World => (Some "boom", emit (EvLog INFO "called") w) in
  let w := Sample.world ∅ true in
  (store_set "k" f w).1 = Some "boom"
  ∧ trace (store_set "k" f w).2 = [EvLog INFO "called"]
  ∧ cache (store_set "k" f w).2 = mkStore {["k" := 0]} [0].
Proof.
  intros f w.
  destruct (store_set_runs_callback_locked "k" f w) as (_ & _ & H1 & _ & _ & H2 & _ & H3).
  { intros k mu H. discriminate H. }
  split; [exact H1|]. split; [exact H2|].
  rewrite H3 by reflexivity. reflexivity.
Defined.

Lemma fail500_cache err w : cache (fail500 err w) = cache w.
Proof. reflexivity. Qed.

(** [produce] goes through the store at most once: in [cache.set], when it
    gets as far as running cwebp. *)
Lemma produce_cache E dir o r w :
  cache (produce E dir o r w) = cache w
  ∨ cache (produce E dir o r w) = locked_section (webpPath_of dir r) (cache w).
Proof.
  unfold produce.
  destruct (eqs _ ""); [left; reflexivity|].
  destruct (client_Get E (fullURL_of o r)) as [err|res]; [left; reflexivity|].
  destruct (Os.OpenFile_rdwr_create _ _) as [err|fs1]; [left; reflexivity|].
  unfold copy_body. destruct (BodyErr res) as [err|]; [left; reflexivity|].
  rewrite store_set_transform. simpl.
  destruct (run_command E "cwebp" _ _) as [[fs' out] [err|]]; [right; reflexivity|].
  simpl. destruct (Os.Open fs' _) as [err|webpFile]; [right; reflexivity|].
  match goal with |- context [writeWebp webpFile ?w0] =>
    pose proof (writeWebp_cache webpFile w0) as Hc;
    destruct (writeWebp webpFile w0) as [[err|] w2] end; simpl in Hc;
    right; rewrite ?fail500_cache; exact Hc.
Qed.

Lemma handler_cache E dir o r w :
  let p := webpPath_of dir r in
  cache (handler E dir o r w) = locked_section p (cache w)
  ∨ cache (handler E dir o r w) = locked_section p (locked_section p (cache w)).
Proof.
  intros p.
  destruct (store_get (webpPath_of dir r) w).1 as [e|f] eqn:Hget.
  - rewrite (handler_miss _ _ _ _ _ _ Hget).
    destruct (produce_cache E dir o r
                (with_cache (locked_section (webpPath_of dir r) (cache w)) w))
      as [H|H]; rewrite H; auto.
  - rewrite (handler_hit _ _ _ _ _ _ Hget). cbv zeta.
    set (w1 := with_cache _ w).
    pose proof (writeWebp_cache f w1) as Hc.
    destruct (writeWebp f w1) as [[err|] w2]; simpl in Hc.
    + destruct (produce_cache E dir o r (log WARN err w2)) as [H|H];
        rewrite H; unfold log, emit; simpl; rewrite Hc; auto.
    + rewrite Hc. auto.
Qed.

Lemma table_after_again key s h :
  table_after key (mkStore (table_after key s) h) = table_after key s.
Proof.
  unfold table_after at 1. simpl.
  assert (H : is_Some (table_after key s !! key)).
  { unfold table_after. destruct (m s !! key) eqn:Hk.
    - rewrite Hk. eauto.
    - rewrite lookup_insert_eq. eauto. }
  destruct H as [mu ->]. reflexivity.
Qed.

(** X3.  After any request, on every path through the handler: the lock
    table is the old one plus the request's artifact path (an existing
    entry is kept, no other key is added, none removed); one or two mutexes
    were allocated; every read lock taken was released (no read count has
    changed); and a table that pointed at allocated mutexes still does. *)
Theorem handler_store_effect :
  ∀ (E : Env) (dir : string) (o : Url.URL) (r : Request) (w : World),
    let w' := handler E dir o r w in
    m (cache w') = table_after (webpPath_of dir r) (cache w)
    ∧ (rwmutexes (cache w') = rwmutexes (cache w) ++ [0]
       ∨ rwmutexes (cache w') = rwmutexes (cache w) ++ [0; 0])
    ∧ (∀ mu, mu < length (rwmutexes (cache w)) →
             readers mu (cache w') = readers mu (cache w))
    ∧ (∀ mu, length (rwmutexes (cache w)) ≤ mu → readers mu (cache w') = 0)
    ∧ (store_wf (cache w) → store_wf (cache w')).
Proof.
  intros E dir o r w w'. subst w'.
  set (p := webpPath_of dir r).
  assert (H : cache (handler E dir o r w)
              = mkStore (table_after p (cache w)) (rwmutexes (cache w) ++ [0])
              ∨ cache (handler E dir o r w)
                = mkStore (table_after p (cache w)) (rwmutexes (cache w) ++ [0; 0])).
  { destruct (handler_cache E dir o r w) as [H|H]; rewrite H; fold p.
    - left. apply locked_section_eq.
    - right. rewrite (locked_section_eq p (cache w)), locked_section_eq.
      rewrite table_after_again. simpl. rewrite <- app_assoc. reflexivity. }
  assert (Hr : ∀ (l : list nat) mu, mu < length (rwmutexes (cache w)) →
               default 0 ((rwmutexes (cache w) ++ l) !! mu)
               = default 0 (rwmutexes (cache w) !! mu)).
  { intros l mu Hlt. rewrite lookup_app_l by exact Hlt. reflexivity. }
  assert (Hn : ∀ (l : list nat) mu,
               (∀ i x, l !! i = Some x → x = 0) →
               length (rwmutexes (cache w)) ≤ mu →
               default 0 ((rwmutexes (cache w) ++ l) !! mu) = 0).
  { intros l mu Hl Hge. rewrite lookup_app_r by exact Hge.
    destruct (l !! _) as [x|] eqn:Hx; [apply (Hl _ _ Hx) | reflexivity]. }
  destruct H as [H|H]; rewrite H; unfold readers; simpl.
  - split; [reflexivity|]. split; [auto|]. split; [apply Hr|]. split.
    + intros mu. apply Hn. intros [|i] x Hx; by simplify_eq/=.
    + apply table_after_wf.
  - split; [reflexivity|]. split; [auto|]. split; [apply Hr|]. split.
    + intros mu. apply Hn. intros [|[|i]] x Hx; by simplify_eq/=.
    + intros Hwf.
      pose proof (table_after_wf p _ (table_after_wf p _ Hwf)) as H2.
      rewrite table_after_again in H2. simpl in H2.
      rewrite <- app_assoc in H2. exact H2.
Qed.

(* ===================================================================== *)
(** ** What a request is answered with *)
(* ===================================================================== *)

Lemma wire_Error_fresh E msg code :
  wire E (RW.Error msg code (RW.fresh true))
  = (code, error_header ∅, msg +:+ RW.newline).
Proof.
  unfold wire. rewrite Error_committed, Error_body. simpl.
  change (error_header ∅ !! "Content-Type")
    with (Some ["text/plain; charset=utf-8"]).
  reflexivity.
Qed.

Lemma fail500_answer E err w tr evs :
  rw w = RW.fresh true → trace w = tr ++ evs →
  answered_500 E tr (fail500 err w).
Proof.
  intros Hrw Ht. exists evs, err. split.
  - unfold fail500, http_Error. simpl. rewrite Hrw. apply wire_Error_fresh.
  - rewrite fail500_trace, Ht, <- app_assoc. reflexivity.
Qed.

(** [writeWebp] on a response nothing was written to, over a connection
    that takes the bytes: no error, status 200, the file's bytes as body. *)
Lemma writeWebp_fresh E g w :
  rw w = RW.fresh true →
  (writeWebp g w).1 = None
  ∧ wire_status E (rw (writeWebp g w).2) = 200
  ∧ body (rw (writeWebp g w).2) = h_data g.
Proof.
  intros Hrw. rewrite writeWebp_spec, Copy_spec, Hrw. simpl.
  destruct (eqs (h_data g) "") eqn:He; simpl.
  - apply eqs_true in He. split; [reflexivity|]. split; [|symmetry; exact He].
    apply wire_status_default. reflexivity.
  - split; [reflexivity|]. split; [|reflexivity].
    eapply wire_status_committed. reflexivity.
Qed.

Lemma Open_file fs path g :
  Os.Open fs path = inr g →
  ∃ f, fs !! path = Some f ∧ readable f = true ∧ h_data g = data f.
Proof.
  unfold Os.Open. destruct (fs !! path) as [f|]; [|discriminate].
  destruct (readable f) eqn:Hr; [|discriminate].
  intros H. injection H as <-. eauto.
Qed.

Lemma store_get_hit_file path w g :
  (store_get path w).1 = inr g →
  ∃ f, fs w !! path = Some f ∧ readable f = true ∧ h_data g = data f.
Proof.
  rewrite store_get_eq. simpl. unfold lookup_result.
  destruct (fs w !! path) as [f|]; [|discriminate].
  destruct (readable f) eqn:Hr; [|discriminate].
  intros H. injection H as <-. eauto.
Qed.

(** The answers of [produce] on a response nothing was written to. *)
Lemma produce_answers E dir o r w :
  rw w = RW.fresh true →
  let urlQ := Url.Get (Url.ParseQuery (Url.RawQuery (r_URL r))) "url" in
  (urlQ = "" ∧ answered_400 E (trace w) (produce E dir o r w))
  ∨ (urlQ ≠ "" ∧ answered_500 E (trace w) (produce E dir o r w))
  ∨ (urlQ ≠ "" ∧ answered_200 E (webpPath_of dir r) (produce E dir o r w)).
Proof.
  intros Hrw urlQ. unfold produce. fold urlQ.
  destruct (eqs urlQ "") eqn:Hu.
  { left. apply eqs_true in Hu. split; [exact Hu|]. split; [|reflexivity].
    unfold http_Error. simpl. rewrite Hrw. apply wire_Error_fresh. }
  apply eqs_false in Hu. right.
  destruct (client_Get E (fullURL_of o r)) as [err|res].
  { left. split; [exact Hu|]. eapply fail500_answer; [exact Hrw | reflexivity]. }
  destruct (Os.OpenFile_rdwr_create _ _) as [err|fs1].
  { left. split; [exact Hu|]. eapply fail500_answer; [exact Hrw | reflexivity]. }
  unfold copy_body. destruct (BodyErr res) as [err|].
  { left. split; [exact Hu|]. eapply fail500_answer; [exact Hrw | reflexivity]. }
  rewrite store_set_transform. simpl.
  destruct (run_command E "cwebp" _ _) as [[fs' out] [err|]].
  { left. split; [exact Hu|].
    eapply (fail500_answer E _ _ (trace w)
              [EvGet (fullURL_of o r); EvExec "cwebp" (cwebp_args dir r)]);
      [exact Hrw | simpl; rewrite <- app_assoc; reflexivity]. }
  simpl. destruct (Os.Open fs' _) as [err|g] eqn:Hopen.
  { left. split; [exact Hu|].
    eapply (fail500_answer E _ _ (trace w)
              [EvGet (fullURL_of o r); EvExec "cwebp" (cwebp_args dir r)]);
      [exact Hrw | simpl; rewrite <- app_assoc; reflexivity]. }
  right. split; [exact Hu|].
  match goal with |- context [writeWebp g ?w0] =>
    destruct (writeWebp_fresh E g w0 Hrw) as (He & Hs & Hb);
    pose proof (writeWebp_fs g w0) as Hf;
    destruct (writeWebp g w0) as [[err|] w2] end; [discriminate He|].
  simpl in *. split; [exact Hs|].
  destruct (Open_file _ _ _ Hopen) as (f & Hf1 & Hf2 & Hf3).
  exists f. rewrite Hf, Hb. auto.
Qed.

(** X4.  On a connection that takes the bytes, every request gets one of
    three answers.  200: the body is the artifact file as it is on disk
    when the request ends.  400: only for a request without [url], with
    the fixed message as plain text, and nothing is logged.  500: only for
    a request with [url], the body is the error message as plain text plus
    a newline, and the same message is the last line logged, at level
    ERRO. *)
Theorem handler_answers_200_400_or_500 :
  ∀ (E : Env) (dir : string) (o : Url.URL) (r : Request)
    (files : FS) (c : store) (tr : list event),
    let w' := handler E dir o r (mkWorld files c (RW.fresh true) tr) in
    let urlQ := Url.Get (Url.ParseQuery (Url.RawQuery (r_URL r))) "url" in
    answered_200 E (webpPath_of dir r) w'
    ∨ (urlQ = "" ∧ answered_400 E tr w')
    ∨ (urlQ ≠ "" ∧ answered_500 E tr w').
Proof.
  intros E dir o r files c tr w' urlQ. subst w'.
  set (w := mkWorld files c (RW.fresh true) tr).
  destruct (store_get (webpPath_of dir r) w).1 as [e|g] eqn:Hget.
  - rewrite (handler_miss _ _ _ _ _ _ Hget).
    destruct (produce_answers E dir o r
                (with_cache (locked_section (webpPath_of dir r) (cache w)) w)
                eq_refl) as [H|[H|[_ H]]]; auto.
  - rewrite (handler_hit _ _ _ _ _ _ Hget). cbv zeta.
    set (w1 := with_cache _ w).
    destruct (writeWebp_fresh E g w1 eq_refl) as (He & Hs & Hb).
    pose proof (writeWebp_fs g w1) as Hf.
    destruct (writeWebp g w1) as [[err|] w2]; [discriminate He|].
    simpl in *. left. split; [exact Hs|].
    destruct (store_get_hit_file (webpPath_of dir r) w g Hget)
      as (f & Hf1 & Hf2 & Hf3).
    exists f. rewrite Hf, Hb. auto.
Qed.

(** What [produce] does once the body is in the scratch file, spelled out
    for the two results of cwebp. *)
Lemma produce_after_download E dir o r w res fs1 :
  rw w = RW.fresh true →
  Url.Get (Url.ParseQuery (Url.RawQuery (r_URL r))) "url" ≠ "" →
  client_Get E (fullURL_of o r) = inr res →
  Os.OpenFile_rdwr_create (fs w) (origPath_of dir r) = inr fs1 →
  BodyErr res = None →
  let scratch := Os.write_at_start fs1 (origPath_of dir r) (Body res) in
  let ran := [EvGet (fullURL_of o r); EvExec "cwebp" (cwebp_args dir r)] in
  let w' := produce E dir o r w in
  (∀ fs' out err,
     run_command E "cwebp" (cwebp_args dir r) scratch = (fs', out, Some err) →
     let msg := "failed to execute cwebp (" +:+ out +:+ "): " +:+ err in
     wire E (rw w')
     = (StatusInternalServerError, error_header ∅, msg +:+ RW.newline)
     ∧ trace w' = trace w ++ ran ++ [EvLog ERRO msg]
     ∧ fs w' = fs')
  ∧ (∀ fs' out g,
       run_command E "cwebp" (cwebp_args dir r) scratch = (fs', out, None) →
       Os.Open fs' (webpPath_of dir r) = inr g →
       wire_status E (rw w') = 200
       ∧ body (rw w') = h_data g
       ∧ trace w' = trace w ++ ran
       ∧ fs w' = fs')
  ∧ (∀ fs' out err,
       run_command E "cwebp" (cwebp_args dir r) scratch = (fs', out, None) →
       Os.Open fs' (webpPath_of dir r) = inl err →
       wire E (rw w')
       = (StatusInternalServerError, error_header ∅, err +:+ RW.newline)
       ∧ trace w' = trace w ++ ran ++ [EvLog ERRO err]
       ∧ fs w' = fs').
Proof.
  intros Hrw Hne Hget Hopen Hbody scratch ran w'. subst w'.
  apply eqs_false in Hne.
  unfold produce. rewrite Hne, Hget. simpl. rewrite Hopen.
  unfold copy_body. rewrite Hbody. rewrite store_set_transform. simpl.
  fold scratch. split; [|split].
  - intros fs' out err Hrun. cbv zeta. rewrite Hrun. simpl.
    unfold fail500, http_Error, log, emit. simpl. rewrite Hrw.
    rewrite wire_Error_fresh, <- !app_assoc. auto.
  - intros fs' out g Hrun Hop. rewrite Hrun. simpl. rewrite Hop.
    match goal with |- context [writeWebp g ?w0] =>
      destruct (writeWebp_fresh E g w0 Hrw) as (He & Hs & Hb);
      pose proof (writeWebp_fs g w0) as Hf;
      pose proof (writeWebp_trace g w0) as Ht;
      destruct (writeWebp g w0) as [[err|] w2] end; [discriminate He|].
    simpl in *. rewrite Ht, <- app_assoc. auto.
  - intros fs' out err Hrun Hop. rewrite Hrun. simpl. rewrite Hop.
    unfold fail500, http_Error, log, emit. simpl. rewrite Hrw.
    rewrite wire_Error_fresh, <- !app_assoc. auto.
Qed.

(** X5.  A cache miss on which the origin answered and the body is in the
    scratch file, over a connection that takes the bytes.  If cwebp fails,
    the answer is 500 with the text "failed to execute cwebp (<output>):
    <error>", the same text is logged, and the files are left as cwebp left
    them (the handler removes nothing, the scratch file stays).  If cwebp
    succeeds and the artifact opens, the answer is 200 with the artifact's
    bytes, after exactly one GET and one run of cwebp, in this order.  If
    cwebp succeeds but the artifact does not open, the answer is 500 with
    the error of [os.Open]. *)
Theorem miss_path_answer_follows_cwebp :
  ∀ (E : Env) (dir : string) (o : Url.URL) (r : Request)
    (files : FS) (c : store) (tr : list event)
    (e : string) (res : Response) (fs1 : FS),
    let w := mkWorld files c (RW.fresh true) tr in
    (store_get (webpPath_of dir r) w).1 = inl e →
    Url.Get (Url.ParseQuery (Url.RawQuery (r_URL r))) "url" ≠ "" →
    client_Get E (fullURL_of o r) = inr res →
    Os.OpenFile_rdwr_create files (origPath_of dir r) = inr fs1 →
    BodyErr res = None →
    let scratch := Os.write_at_start fs1 (origPath_of dir r) (Body res) in
    let ran := [EvGet (fullURL_of o r); EvExec "cwebp" (cwebp_args dir r)] in
    let w' := handler E dir o r w in
    (∀ fs' out err,
       run_command E "cwebp" (cwebp_args dir r) scratch = (fs', out, Some err) →
       let msg := "failed to execute cwebp (" +:+ out +:+ "): " +:+ err in
       wire E (rw w')
       = (StatusInternalServerError, error_header ∅, msg +:+ RW.newline)
       ∧ trace w' = tr ++ ran ++ [EvLog ERRO msg]
       ∧ fs w' = fs')
    ∧ (∀ fs' out g,
         run_command E "cwebp" (cwebp_args dir r) scratch = (fs', out, None) →
         Os.Open fs' (webpPath_of dir r) = inr g →
         wire_status E (rw w') = 200
         ∧ body (rw w') = h_data g
         ∧ trace w' = tr ++ ran
         ∧ fs w' = fs')
    ∧ (∀ fs' out err,
         run_command E "cwebp" (cwebp_args dir r) scratch = (fs', out, None) →
         Os.Open fs' (webpPath_of dir r) = inl err →
         wire E (rw w')
         = (StatusInternalServerError, error_header ∅, err +:+ RW.newline)
         ∧ trace w' = tr ++ ran ++ [EvLog ERRO err]
         ∧ fs w' = fs').
Proof.
  intros E dir o r files c tr e res fs1 w Hmiss Hne Hget Hopen Hbody scratch ran w'.
  subst w'. rewrite (handler_miss _ _ _ _ _ _ Hmiss).
  exact (produce_after_download E dir o r
           (with_cache (locked_section (webpPath_of dir r) (cache w)) w)
           res fs1 eq_refl Hne Hget Hopen Hbody).
Qed.

(** X5, an instance: cwebp fails; the downloaded file stays in the cache
    directory and no artifact is there. *)
Lemma failed_transform_witness :
  let E := mkEnv (Sample.origin_answers 200 "PNG") Sample2.cwebp_fails Sample.sniff in
  let r := Sample.request "/" "url=/a.png" in
  let w' := handler E Sample.cacheDir Sample.originalURL r (Sample.world ∅ true) in
  wire E (rw w')
  = (500, error_header ∅,
     "failed to execute cwebp (cannot decode): exit status 255" +:+ RW.newline)
  ∧ fs w' = {[origPath_of Sample.cacheDir r := mkFile "PNG" true true]}.
Proof.
  intros E r w'.
  destruct (miss_path_answer_follows_cwebp E Sample.cacheDir Sample.originalURL r
              ∅ (newStore Sample.cacheDir) [] errKeyNotFound
              (mkResponse 200 "PNG" None)
              {[origPath_of Sample.cacheDir r := mkFile "" true true]})
    as (H & _ & _);
    [vm_compute; reflexivity | discriminate | reflexivity
    | vm_compute; reflexivity | reflexivity |].
  destruct (H {[origPath_of Sample.cacheDir r := mkFile "PNG" true true]}
              "cannot decode" "exit status 255") as (H1 & _ & H3);
    [vm_compute; reflexivity|].
  split; [exact H1 | exact H3].
Defined.

(* ===================================================================== *)
(** ** The scratch file *)
(* ===================================================================== *)

Lemma drop_empty n : Os.drop n "" = "".
Proof. destruct n; reflexivity. Qed.

Lemma drop_empty_iff s : ∀ n, Os.drop n s = "" ↔ String.length s ≤ n.
Proof.
  induction s as [|c s IH]; intros n.
  - rewrite drop_empty. simpl. split; [lia | reflexivity].
  - destruct n as [|n]; simpl.
    + split; [discriminate | lia].
    + rewrite IH. lia.
Qed.

Lemma append_eq_self s t : s +:+ t = s ↔ t = "".
Proof.
  split; [|intros ->; apply append_empty_r].
  induction s as [|c s IH]; [intros H; exact H|].
  change (String c s +:+ t) with (String c (s +:+ t)).
  intros H. injection H as H. apply IH, H.
Qed.

(** X6.  The scratch file is opened without truncation.  When a scratch
    file is already there (from an earlier request with the same key), the
    download overwrites its first bytes only: what cwebp is run on is the
    body followed by the old file's bytes beyond the body's length.  The
    scratch file holds exactly the body if and only if the old file was not
    longer than the body. *)
Theorem scratch_file_keeps_longer_old_tail :
  ∀ (E : Env) (dir : string) (o : Url.URL) (r : Request) (w : World)
    (e : string) (res : Response) (old : File),
    (store_get (webpPath_of dir r) w).1 = inl e →
    Url.Get (Url.ParseQuery (Url.RawQuery (r_URL r))) "url" ≠ "" →
    client_Get E (fullURL_of o r) = inr res →
    BodyErr res = None →
    fs w !! origPath_of dir r = Some old →
    readable old = true → writable old = true →
    let written := Body res +:+ Os.drop (String.length (Body res)) (data old) in
    let scratch := <[origPath_of dir r := mkFile written true true]> (fs w) in
    fs (handler E dir o r w)
    = (run_command E "cwebp" (cwebp_args dir r) scratch).1.1
    ∧ execs (trace (handler E dir o r w))
      = execs (trace w) ++ [("cwebp", cwebp_args dir r)]
    ∧ (written = Body res ↔ String.length (data old) ≤ String.length (Body res)).
Proof.
  intros E dir o r w e res old Hmiss Hne Hget Hbody Hold Hr Hw written scratch.
  assert (Hopen : Os.OpenFile_rdwr_create (fs w) (origPath_of dir r) = inr (fs w)).
  { unfold Os.OpenFile_rdwr_create. rewrite Hold, Hr, Hw. reflexivity. }
  assert (Hs : Os.write_at_start (fs w) (origPath_of dir r) (Body res) = scratch).
  { unfold Os.write_at_start. rewrite Hold, Hr, Hw. reflexivity. }
  rewrite (handler_miss _ _ _ _ _ _ Hmiss).
  destruct (produce_reaches_cwebp E dir o r
              (with_cache (locked_section (webpPath_of dir r) (cache w)) w)
              res (fs w) Hne Hget Hopen Hbody) as [Hx Hf].
  rewrite Hs in Hf. split; [exact Hf|]. split; [exact Hx|].
  unfold written. rewrite append_eq_self. apply drop_empty_iff.
Qed.

(** X6, an instance: a nine-byte scratch file and a three-byte body. *)
Lemma scratch_tail_witness :
  let r := Sample.request "/" "url=/a.png" in
  let orig := origPath_of Sample.cacheDir r in
  let w := Sample.world {[orig := mkFile "OLDOLDOLD" true true]} true in
  let w' := handler Sample.env Sample.cacheDir Sample.originalURL r w in
  fs w' !! orig = Some (mkFile "PNGOLDOLD" true true).
Proof.
  intros r orig w w'.
  destruct (scratch_file_keeps_longer_old_tail Sample.env Sample.cacheDir
              Sample.originalURL r w errKeyNotFound (mkResponse 200 "PNG" None)
              (mkFile "OLDOLDOLD" true true)) as (H & _ & _);
    [vm_compute; reflexivity | discriminate | reflexivity | reflexivity
    | vm_compute; reflexivity | reflexivity | reflexivity |].
  subst w'. rewrite H. vm_compute. reflexivity.
Defined.

Lemma Ext_empty_url : Filepath.Ext "" = "".
Proof. reflexivity. Qed.

(** When the [url] parameter has the extension ".webp", the scratch file
    and the cache artifact are the same path. *)
Lemma webp_url_scratch_is_artifact dir r :
  Filepath.Ext (Url.Get (Url.ParseQuery (Url.RawQuery (r_URL r))) "url") = ".webp" →
  origPath_of dir r = webpPath_of dir r.
Proof. intros H. unfold origPath_of, webpPath_of. rewrite H. reflexivity. Qed.

(** X7.  For a [url] with the extension ".webp" the download is written to
    the artifact's own path.  If cwebp then fails and leaves the files
    alone, the request is answered 500, but the untransformed download
    stays at the artifact path: the next request with the same key is a
    cache hit and is answered 200 with the origin's bytes, without a GET
    and without a run of cwebp. *)
Theorem failed_transform_of_webp_url_poisons_cache :
  ∀ (E : Env) (dir : string) (o : Url.URL) (r : Request)
    (files : FS) (c : store) (tr : list event)
    (res : Response) (out err : string),
    let p := webpPath_of dir r in
    let downloaded := <[p := mkFile (Body res) true true]> files in
    Filepath.Ext (Url.Get (Url.ParseQuery (Url.RawQuery (r_URL r))) "url") = ".webp" →
    files !! p = None →
    client_Get E (fullURL_of o r) = inr res →
    BodyErr res = None →
    run_command E "cwebp" (cwebp_args dir r) downloaded = (downloaded, out, Some err) →
    let w1 := handler E dir o r (mkWorld files c (RW.fresh true) tr) in
    let w2 := handler E dir o r (mkWorld (fs w1) (cache w1) (RW.fresh true) (trace w1)) in
    wire_status E (rw w1) = StatusInternalServerError
    ∧ fs w1 = downloaded
    ∧ wire_status E (rw w2) = 200
    ∧ body (rw w2) = Body res
    ∧ trace w2 = trace w1.
Proof.
  intros E dir o r files c tr res out err p downloaded Hext Hnone Hget Hbody Hrun w1 w2.
  pose proof (webp_url_scratch_is_artifact dir r Hext) as Hpath. fold p in Hpath.
  assert (Hne : Url.Get (Url.ParseQuery (Url.RawQuery (r_URL r))) "url" ≠ "").
  { intros H. rewrite H in Hext. discriminate Hext. }
  set (w := mkWorld files c (RW.fresh true) tr) in *.
  assert (Hmiss : (store_get p w).1 = inl errKeyNotFound).
  { rewrite store_get_eq. simpl. unfold lookup_result. rewrite Hnone. reflexivity. }
  assert (Hopen : Os.OpenFile_rdwr_create files (origPath_of dir r)
                  = inr (<[p := mkFile "" true true]> files)).
  { unfold Os.OpenFile_rdwr_create. rewrite Hpath, Hnone. reflexivity. }
  assert (Hs : Os.write_at_start (<[p := mkFile "" true true]> files)
                 (origPath_of dir r) (Body res) = downloaded).
  { unfold Os.write_at_start. rewrite Hpath, lookup_insert_eq. simpl.
    rewrite drop_empty, append_empty_r. unfold downloaded.
    apply insert_insert_eq. }
  assert (Hh : w1 = produce E dir o r (with_cache (locked_section p (cache w)) w))
    by (apply (handler_miss _ _ _ _ _ _ Hmiss)).
  destruct (produce_after_download E dir o r
              (with_cache (locked_section p (cache w)) w) res _
              eq_refl Hne Hget Hopen Hbody) as (Hfail & _ & _).
  rewrite Hs in Hfail.
  destruct (Hfail downloaded out err Hrun) as (Hwire & _ & Hfs).
  rewrite <- Hh in Hwire, Hfs.
  assert (Hst : wire_status E (rw w1) = StatusInternalServerError)
    by (unfold wire_status; rewrite Hwire; reflexivity).
  split; [exact Hst|]. split; [exact Hfs|].
  set (w' := mkWorld (fs w1) (cache w1) (RW.fresh true) (trace w1)) in *.
  assert (Hhit : (store_get p w').1 = inr (mkHandle p (Body res))).
  { rewrite store_get_eq. simpl. unfold lookup_result. rewrite Hfs.
    unfold downloaded. rewrite lookup_insert_eq. reflexivity. }
  subst w2. rewrite (handler_hit _ _ _ _ _ _ Hhit). cbv zeta.
  match goal with |- context [writeWebp ?g ?w0] =>
    destruct (writeWebp_fresh E g w0 eq_refl) as (He & Hs2 & Hb);
    pose proof (writeWebp_trace g w0) as Ht;
    destruct (writeWebp g w0) as [[err'|] w3] end; [discriminate He|].
  simpl in *. auto.
Qed.

(** X7, an instance: [url=/a.webp], cwebp fails. *)
Lemma webp_url_poison_witness :
  let E := mkEnv (Sample.origin_answers 200 "ORIGINAL") Sample2.cwebp_fails Sample.sniff in
  let r := Sample.request "/" "url=/a.webp" in
  let w1 := handler E Sample.cacheDir Sample.originalURL r (Sample.world ∅ true) in
  let w2 := handler E Sample.cacheDir Sample.originalURL r
              (mkWorld (fs w1) (cache w1) (RW.fresh true) (trace w1)) in
  wire_status E (rw w1) = 500
  ∧ fs w1 = {[webpPath_of Sample.cacheDir r := mkFile "ORIGINAL" true true]}
  ∧ wire_status E (rw w2) = 200
  ∧ body (rw w2) = "ORIGINAL"
  ∧ trace w2 = trace w1.
Proof.
  intros E r w1 w2.
  apply (failed_transform_of_webp_url_poisons_cache E Sample.cacheDir
           Sample.originalURL r ∅ (newStore Sample.cacheDir) []
           (mkResponse 200 "ORIGINAL" None) "cannot decode" "exit status 255");
    reflexivity.
Defined.

(* ===================================================================== *)
(** ** Keys, file names and paths *)
(* ===================================================================== *)

Lemma append_assoc (a b c : string) : (a +:+ b) +:+ c = a +:+ (b +:+ c).
Proof.
  induction a as [|x a IH]; [reflexivity|].
  change (String x (a +:+ b) +:+ c = String x (a +:+ (b +:+ c))).
  change (String x ((a +:+ b) +:+ c) = String x (a +:+ (b +:+ c))).
  rewrite IH. reflexivity.
Qed.

Lemma length_append (a b : string) :
  String.length (a +:+ b) = String.length a + String.length b.
Proof.
  induction a as [|x a IH]; [reflexivity|].
  change (String x a +:+ b) with (String x (a +:+ b)). simpl. rewrite IH. reflexivity.
Qed.

Lemma all_chars_append P a b :
  all_chars P (a +:+ b) = all_chars P a && all_chars P b.
Proof.
  induction a as [|x a IH]; [reflexivity|].
  change (String x a +:+ b) with (String x (a +:+ b)). simpl.
  rewrite IH, andb_assoc. reflexivity.
Qed.

Lemma hex_digit_lower n : is_lower_hex (Hex.digit n) = true.
Proof.
  unfold Hex.digit. generalize (N.to_nat n) as k. intros k.
  do 16 (destruct k as [|k]; [reflexivity|]). reflexivity.
Qed.

Lemma encode_byte_hex c : all_chars is_lower_hex (Hex.encode_byte c) = true.
Proof.
  unfold Hex.encode_byte. simpl. rewrite !hex_digit_lower. reflexivity.
Qed.

Lemma EncodeToString_hex l : all_chars is_lower_hex (Hex.EncodeToString l) = true.
Proof.
  induction l as [|c l IH]; [reflexivity|].
  cbn [Hex.EncodeToString]. rewrite all_chars_append, encode_byte_hex, IH. reflexivity.
Qed.

Lemma EncodeToString_length l :
  String.length (Hex.EncodeToString l) = 2 * length l.
Proof.
  induction l as [|c l IH]; [reflexivity|].
  cbn [Hex.EncodeToString]. rewrite length_append, IH. simpl. lia.
Qed.

Lemma Sum_length s : length (Sha1.Sum s) = 20.
Proof.
  unfold Sha1.Sum, Sha1.digest. rewrite length_map.
  repeat rewrite length_app. reflexivity.
Qed.

Lemma fingerprint_shape path rawQuery :
  String.length (fingerprint path rawQuery) = 40
  ∧ all_chars is_lower_hex (fingerprint path rawQuery) = true.
Proof.
  unfold fingerprint. split.
  - rewrite EncodeToString_length, Sum_length. reflexivity.
  - apply EncodeToString_hex.
Qed.

(** X8.  The cache key is always forty characters long and made of the
    digits 0-9 and the letters a-f only, whatever the request's path and
    query are. *)
Theorem fingerprint_is_forty_hex_digits :
  ∀ (path rawQuery : string),
    String.length (fingerprint path rawQuery) = 40
    ∧ all_chars is_lower_hex (fingerprint path rawQuery) = true.
Proof.
  intros path rawQuery. unfold fingerprint. split.
  - rewrite EncodeToString_length, Sum_length. reflexivity.
  - apply EncodeToString_hex.
Qed.

Lemma Split_not_nil sep s : Strings.Split sep s ≠ [].
Proof.
  destruct s as [|c s]; simpl; [discriminate|].
  destruct (eqc c sep); [discriminate|].
  destruct (Strings.Split sep s); discriminate.
Qed.

Lemma Split_app sep a b :
  Strings.Split sep (a +:+ String sep b) = Strings.Split sep a ++ Strings.Split sep b.
Proof.
  induction a as [|c a IH].
  - change ("" +:+ String sep b) with (String sep b). simpl.
    unfold eqc. rewrite bool_decide_eq_true_2 by reflexivity. reflexivity.
  - change (String c a +:+ String sep b) with (String c (a +:+ String sep b)).
    simpl. destruct (eqc c sep).
    + rewrite IH. reflexivity.
    + rewrite IH. pose proof (Split_not_nil sep a) as Hn.
      destruct (Strings.Split sep a) as [|h t]; [congruence | reflexivity].
Qed.

Lemma Split_no_sep sep b : Strings.Contains b sep = false → Strings.Split sep b = [b].
Proof.
  induction b as [|c b IH]; [reflexivity|].
  simpl. intros H. apply orb_false_elim in H as [Hc Hb].
  rewrite Hc, (IH Hb). reflexivity.
Qed.

Lemma clean_step_plain rooted stack b :
  plain_name b → Filepath.clean_step rooted stack b = b :: stack.
Proof.
  intros (_ & H1 & H2 & H3). unfold Filepath.clean_step.
  apply eqs_false in H1, H2, H3. rewrite H1, H2, H3. reflexivity.
Qed.

Lemma Join_snoc l b :
  Strings.Join "/" (l ++ [b])
  = match l with
    | [] => b
    | _ => (Strings.Join "/" l +:+ "/") +:+ b
    end.
Proof.
  induction l as [|x l IH]; [reflexivity|].
  destruct l as [|y l].
  - simpl. rewrite append_assoc. reflexivity.
  - change ((x :: y :: l) ++ [b]) with (x :: ((y :: l) ++ [b])).
    change (Strings.Join "/" (x :: (y :: l) ++ [b]))
      with (x +:+ "/" +:+ Strings.Join "/" ((y :: l) ++ [b])).
    rewrite IH.
    change (Strings.Join "/" (x :: y :: l))
      with (x +:+ "/" +:+ Strings.Join "/" (y :: l)).
    rewrite !append_assoc. reflexivity.
Qed.

Lemma append_not_empty a b : b ≠ "" → a +:+ b ≠ "".
Proof. intros Hb. destruct a; [exact Hb | discriminate]. Qed.

Lemma starts_with_slash_append a b :
  a ≠ "" → Url.starts_with_slash (a +:+ b) = Url.starts_with_slash a.
Proof. destruct a as [|c a]; [congruence | reflexivity]. Qed.

Lemma starts_with_slash_plain b : plain_name b → Url.starts_with_slash b = false.
Proof.
  intros (H & _). destruct b as [|c b]; [reflexivity|].
  simpl in H. apply orb_false_elim in H as [Hc _].
  unfold eqc in Hc. apply bool_decide_eq_false in Hc.
  unfold Url.starts_with_slash.
  destruct (decide (c = "/"%char)) as [->|Hne]; [congruence|].
  destruct c as [[] [] [] [] [] [] [] []]; try reflexivity. congruence.
Qed.

(** [filepath.Join] of any directory and a plain file name is the
    directory's prefix followed by the name. *)
Lemma Join_is_prefix_and_name dir b :
  plain_name b → Filepath.Join dir b = dir_prefix dir +:+ b.
Proof.
  intros Hb. pose proof Hb as (Hsep & Hne & _).
  unfold Filepath.Join. destruct (eqs dir "") eqn:Hd; simpl.
  - apply eqs_true in Hd. subst dir. apply eqs_false in Hne. rewrite Hne. simpl.
    unfold Filepath.Clean. rewrite (starts_with_slash_plain _ Hb).
    rewrite (Split_no_sep _ _ Hsep). simpl.
    rewrite (clean_step_plain _ _ _ Hb). simpl. rewrite Hne. reflexivity.
  - apply eqs_false in Hd. unfold Filepath.Clean, dir_prefix.
    rewrite (starts_with_slash_append _ _ Hd).
    change (dir +:+ "/" +:+ b) with (dir +:+ String "/" b).
    rewrite Split_app, (Split_no_sep _ _ Hsep), fold_left_app. simpl.
    rewrite (clean_step_plain _ _ _ Hb). simpl. rewrite Join_snoc.
    set (kept := rev _).
    assert (Hbody : match kept with
                    | [] => b
                    | _ :: _ => (Strings.Join "/" kept +:+ "/") +:+ b
                    end
                    = match kept with
                      | [] => ""
                      | _ :: _ => Strings.Join "/" kept +:+ "/"
                      end +:+ b)
      by (destruct kept; reflexivity).
    rewrite Hbody. set (pre := match kept with [] => "" | _ => _ end).
    destruct (Url.starts_with_slash dir).
    + rewrite append_assoc. reflexivity.
    + assert (He : eqs (pre +:+ b) "" = false)
        by (apply eqs_false, append_not_empty, Hne).
      rewrite He. reflexivity.
Qed.

Lemma Ext_no_separator s : Strings.Contains (Filepath.Ext s) "/" = false.
Proof.
  induction s as [|c s IH]; [reflexivity|].
  cbn [Filepath.Ext].
  destruct (Strings.Contains s ".") eqn:Hdot; simpl; [exact IH|].
  destruct (Strings.Contains s "/") eqn:Hsep; simpl; [exact IH|].
  destruct (eqc c ".") eqn:Hc; [|reflexivity].
  unfold eqc in Hc. apply bool_decide_eq_true in Hc. subst c.
  simpl. exact Hsep.
Qed.

Lemma lower_hex_not_special c :
  is_lower_hex c = true → eqc c "/" = false ∧ c ≠ "."%char.
Proof.
  destruct c as [[] [] [] [] [] [] [] []]; intros H; try discriminate H;
    (split; [reflexivity | discriminate]).
Qed.

Lemma hex_no_separator s :
  all_chars is_lower_hex s = true → Strings.Contains s "/" = false.
Proof.
  induction s as [|c s IH]; [reflexivity|].
  simpl. intros H. apply andb_prop in H as [Hc Hs].
  destruct (lower_hex_not_special c Hc) as [-> _]. simpl. exact (IH Hs).
Qed.

(** A name that starts with a key and goes on without a separator is a
    plain file name. *)
Lemma key_name_is_plain path rawQuery ext :
  Strings.Contains ext "/" = false →
  plain_name (fingerprint path rawQuery +:+ ext).
Proof.
  intros Hext.
  destruct (fingerprint_shape path rawQuery) as [Hlen Hhex].
  destruct (fingerprint path rawQuery) as [|c key]; [discriminate Hlen|].
  change (String c key +:+ ext) with (String c (key +:+ ext)).
  pose proof Hhex as Hhex'. simpl in Hhex'. apply andb_prop in Hhex' as [Hc Hk].
  destruct (lower_hex_not_special c Hc) as [Hc1 Hc2].
  split; [|split; [discriminate|split]].
  - simpl. rewrite Hc1, Contains_app, (hex_no_separator _ Hk), Hext. reflexivity.
  - intros H. injection H as H _. contradiction.
  - intros H. injection H as H _. contradiction.
Qed.

Lemma append_same_length_inj (a b c d : string) :
  String.length a = String.length b → a +:+ c = b +:+ d → a = b.
Proof.
  revert b. induction a as [|x a IH]; intros [|y b] Hl H; try discriminate Hl.
  - reflexivity.
  - change (String x (a +:+ c) = String y (b +:+ d)) in H.
    injection H as -> H. f_equal. apply IH; [simpl in Hl; lia | exact H].
Qed.

(** X9.  The artifact and the scratch file of a request are files directly
    in the cleaned cache directory: their paths are the directory's prefix
    followed by the file name, and the file name (the key plus ".webp", or
    plus the extension of the [url] parameter) has no path separator and is
    neither "." nor "..", whatever the request's path, query and [url]
    are. *)
Theorem cache_paths_stay_in_cache_dir :
  ∀ (dir : string) (r : Request),
    let key := fingerprint (Url.Path (r_URL r)) (Url.RawQuery (r_URL r)) in
    let ext := Filepath.Ext (Url.Get (Url.ParseQuery (Url.RawQuery (r_URL r))) "url") in
    webpPath_of dir r = dir_prefix dir +:+ (key +:+ ".webp")
    ∧ origPath_of dir r = dir_prefix dir +:+ (key +:+ ext)
    ∧ plain_name (key +:+ ".webp")
    ∧ plain_name (key +:+ ext).
Proof.
  intros dir r key ext.
  assert (H1 : plain_name (key +:+ ".webp")) by (apply key_name_is_plain; reflexivity).
  assert (H2 : plain_name (key +:+ ext))
    by (apply key_name_is_plain, Ext_no_separator).
  split; [|split; [|split; assumption]].
  - unfold webpPath_of. fold key. apply Join_is_prefix_and_name, H1.
  - unfold origPath_of. fold key ext. apply Join_is_prefix_and_name, H2.
Qed.

(** X10.  Two requests share their cache artifact file exactly when the
    SHA-1 digests of their path followed by their raw query are equal, for
    every cache directory. *)
Theorem same_artifact_iff_same_digest :
  ∀ (dir : string) (r1 r2 : Request),
    webpPath_of dir r1 = webpPath_of dir r2
    ↔ Sha1.Sum (Url.Path (r_URL r1) +:+ Url.RawQuery (r_URL r1))
      = Sha1.Sum (Url.Path (r_URL r2) +:+ Url.RawQuery (r_URL r2)).
Proof.
  intros dir r1 r2. rewrite <- fingerprint_eq_iff. unfold webpPath_of.
  rewrite !Join_is_prefix_and_name by (apply key_name_is_plain; reflexivity).
  split.
  - intros H. apply String.app_inj in H.
    apply (append_same_length_inj _ _ _ _) in H; [exact H|].
    rewrite !(proj1 (fingerprint_shape _ _)). reflexivity.
  - intros ->. reflexivity.
Qed.

(* ===================================================================== *)
(** ** The flags *)
(* ===================================================================== *)

Lemma Join_Split sep s : Strings.Join (String sep "") (Strings.Split sep s) = s.
Proof.
  induction s as [|c s IH]; [reflexivity|].
  cbn [Strings.Split]. destruct (eqc c sep) eqn:Hc.
  - unfold eqc in Hc. apply bool_decide_eq_true in Hc. subst c.
    pose proof (Split_not_nil sep s) as Hn.
    destruct (Strings.Split sep s) as [|h t]; [congruence|].
    change (Strings.Join (String sep "") ("" :: h :: t))
      with ("" +:+ String sep "" +:+ Strings.Join (String sep "") (h :: t)).
    rewrite IH. reflexivity.
  - pose proof (Split_not_nil sep s) as Hn.
    destruct (Strings.Split sep s) as [|h t]; [congruence|].
    destruct t as [|h' t].
    + simpl in IH. simpl. rewrite IH. reflexivity.
    + change (Strings.Join (String sep "") (String c h :: h' :: t))
        with (String c (h +:+ String sep "" +:+ Strings.Join (String sep "") (h' :: t))).
      change (Strings.Join (String sep "") (h :: h' :: t))
        with (h +:+ String sep "" +:+ Strings.Join (String sep "") (h' :: t)) in IH.
      rewrite IH. reflexivity.
Qed.

Lemma Split_length sep s : length (Strings.Split sep s) = S (count_char sep s).
Proof.
  induction s as [|c s IH]; [reflexivity|].
  cbn [Strings.Split count_char]. destruct (eqc c sep).
  - simpl. rewrite IH. reflexivity.
  - pose proof (Split_not_nil sep s) as Hn.
    destruct (Strings.Split sep s) as [|h t]; [congruence|]. exact IH.
Qed.

Lemma Split_parts_no_sep sep s :
  Forall (fun part => Strings.Contains part sep = false) (Strings.Split sep s).
Proof.
  induction s as [|c s IH]; [repeat constructor|].
  cbn [Strings.Split]. destruct (eqc c sep) eqn:Hc.
  - constructor; [reflexivity | exact IH].
  - pose proof (Split_not_nil sep s) as Hn.
    destruct (Strings.Split sep s) as [|h t]; [congruence|].
    inversion IH as [|? ? Hh Ht]; subst. constructor; [|exact Ht].
    simpl. rewrite Hc, Hh. reflexivity.
Qed.

(** X11.  [parseFlags] reports an empty cache directory before an empty
    origin URL and succeeds exactly when both are given.  In every case
    [allowedOrigins] is the [cors] flag cut at its commas: it has one entry
    more than the flag has commas (so it is never empty: without the flag
    it is the one-element list of the empty string), no entry contains a
    comma, and joining the entries with commas gives the flag back. *)
Theorem parseFlags_errors_and_origins :
  ∀ (parsed : Flags),
    let err := (parseFlags parsed).1 in
    let g := (parseFlags parsed).2 in
    (err = None ↔ fl_cacheDir parsed ≠ "" ∧ fl_originalURL parsed ≠ "")
    ∧ (err = Some errEmptyCacheDirFlag ↔ fl_cacheDir parsed = "")
    ∧ (err = Some errEmptyOriginalFlag
       ↔ fl_cacheDir parsed ≠ "" ∧ fl_originalURL parsed = "")
    ∧ g_cacheDir g = fl_cacheDir parsed
    ∧ g_originalURL g = fl_originalURL parsed
    ∧ length (g_allowedOrigins g) = S (count_char "," (fl_cors parsed))
    ∧ Forall (fun origin => Strings.Contains origin "," = false) (g_allowedOrigins g)
    ∧ Strings.Join "," (g_allowedOrigins g) = fl_cors parsed
    ∧ (fl_cors parsed = "" → g_allowedOrigins g = [""]).
Proof.
  intros parsed err g.
  assert (Hg : g = mkGlobals (fl_port parsed) (fl_cacheDir parsed)
                 (fl_cacheSize parsed) (fl_originalURL parsed)
                 (Strings.Split "," (fl_cors parsed))).
  { subst g. unfold parseFlags. simpl.
    destruct (eqs (fl_cacheDir parsed) "");
      [|destruct (eqs (fl_originalURL parsed) "")]; reflexivity. }
  assert (He : err = if eqs (fl_cacheDir parsed) "" then Some errEmptyCacheDirFlag
                     else if eqs (fl_originalURL parsed) ""
                          then Some errEmptyOriginalFlag else None).
  { subst err. unfold parseFlags. simpl.
    destruct (eqs (fl_cacheDir parsed) "");
      [|destruct (eqs (fl_originalURL parsed) "")]; reflexivity. }
  rewrite Hg, He. clear Hg He. simpl.
  split; [|split; [|split]].
  - destruct (eqs (fl_cacheDir parsed) "") eqn:Hc;
      [|destruct (eqs (fl_originalURL parsed) "") eqn:Ho];
      rewrite ?eqs_true, ?eqs_false in *; split;
      try discriminate; try tauto; intros [H1 H2]; congruence.
  - destruct (eqs (fl_cacheDir parsed) "") eqn:Hc;
      [|destruct (eqs (fl_originalURL parsed) "") eqn:Ho];
      rewrite ?eqs_true, ?eqs_false in *; split;
      try discriminate; try tauto; intros H; congruence.
  - destruct (eqs (fl_cacheDir parsed) "") eqn:Hc;
      [|destruct (eqs (fl_originalURL parsed) "") eqn:Ho];
      rewrite ?eqs_true, ?eqs_false in *; split;
      try discriminate; try tauto; intros [H1 H2]; congruence.
  - split; [reflexivity|]. split; [reflexivity|].
    split; [apply Split_length|]. split; [apply Split_parts_no_sep|].
    split; [apply Join_Split|]. intros ->. reflexivity.
Qed.

(* ===================================================================== *)
(** ** Read locks under concurrent [get] and [set] *)
(* ===================================================================== *)

Lemma holders_insert mu t' : ∀ ts i t,
  ts !! i = Some t →
  holders mu (<[i := t']> ts) + holds mu t = holders mu ts + holds mu t'.
Proof.
  unfold holders. induction ts as [|x ts IH]; intros [|i] t H; simpl in *;
    try discriminate H.
  - injection H as ->. lia.
  - specialize (IH i t H). lia.
Qed.

Lemma holders_init mu ks : holders mu (Locks.Start <$> ks) = 0.
Proof. unfold holders. induction ks as [|k ks IH]; [reflexivity | exact IH]. Qed.

Lemma holders_none mu ts :
  (∀ i t, ts !! i = Some t → holds mu t = 0) → holders mu ts = 0.
Proof.
  unfold holders. induction ts as [|x ts IH]; intros H; [reflexivity|].
  simpl. rewrite (H 0 x eq_refl), IH; [reflexivity|].
  intros i t Hi. apply (H (S i) t Hi).
Qed.

Lemma readers_RUnlock mu s :
  readers mu (RUnlock mu s) = pred (readers mu s).
Proof.
  unfold readers, RUnlock. simpl. rewrite list_lookup_alter_eq.
  destruct (rwmutexes s !! mu); reflexivity.
Qed.

Lemma readers_RUnlock_other mu mu' s :
  mu ≠ mu' → readers mu' (RUnlock mu s) = readers mu' s.
Proof.
  intros H. unfold readers, RUnlock. simpl.
  rewrite list_lookup_alter_ne by exact H. reflexivity.
Qed.

Lemma readers_alloc mu s : readers mu (new_RWMutex s).2 = readers mu s.
Proof.
  unfold readers, new_RWMutex. simpl.
  destruct (decide (mu < length (rwmutexes s))) as [Hlt|Hge].
  - rewrite lookup_app_l by exact Hlt. reflexivity.
  - rewrite lookup_app_r by lia. rewrite (lookup_ge_None_2 (rwmutexes s)) by lia.
    destruct (mu - length (rwmutexes s)) as [|n]; reflexivity.
Qed.

Lemma Balanced_init s0 ks : store_wf s0 → Balanced s0 (s0, Locks.Start <$> ks).
Proof.
  intros Hwf. split; simpl.
  - exact Hwf.
  - intros i t mu H Hh. rewrite list_lookup_fmap in H.
    destruct (ks !! i); simpl in H; [|discriminate].
    injection H as <-. discriminate Hh.
  - intros mu. rewrite holders_init. lia.
  - lia.
Qed.

Lemma Balanced_step s0 i c : Balanced s0 c → Balanced s0 (Locks.step i c).
Proof.
  intros [Hwf Hhand Hcount Hheap].
  destruct (c.2 !! i) as [t|] eqn:Hi; [|rewrite step_idle by exact Hi; split; assumption].
  rewrite (step_unfold _ _ _ Hi).
  assert (Hlt : i < length c.2) by (eapply lookup_lt_Some; exact Hi).
  assert (Hothers : ∀ t' j u mu, (<[i := t']> c.2) !! j = Some u → i ≠ j →
                      in_hand u = Some mu → mu < length (rwmutexes c.1)).
  { intros t' j u mu Hj Hne Hu. rewrite list_lookup_insert_ne in Hj by exact Hne.
    eapply Hhand; eauto. }
  destruct t as [k|k p|k mu0|k mu0|k mu0]; simpl.
  - (* allocation *)
    split; unfold store_wf; simpl.
    + intros k' mu H. rewrite length_app. simpl. pose proof (Hwf _ _ H). lia.
    + intros j u mu Hj Hu. rewrite length_app. simpl.
      destruct (decide (i = j)) as [<-|Hne].
      * rewrite list_lookup_insert_eq in Hj by exact Hlt.
        injection Hj as <-. simpl in Hu. injection Hu as <-. lia.
      * pose proof (Hothers _ _ _ _ Hj Hne Hu). lia.
    + intros mu.
      pose proof (holders_insert mu (Locks.Allocated k (length (rwmutexes c.1)))
                    _ _ _ Hi) as Hh. simpl in Hh.
      pose proof (readers_alloc mu c.1) as Hr. unfold new_RWMutex in Hr. simpl in Hr.
      rewrite Hr, Hcount. lia.
    + rewrite length_app. simpl. lia.
  - (* LoadOrStore *)
    assert (Hp : p < length (rwmutexes c.1)) by (eapply Hhand; [exact Hi | reflexivity]).
    unfold LoadOrStore. destruct (m c.1 !! k) as [mu1|] eqn:Hk; simpl.
    + split; unfold store_wf; simpl; [exact Hwf| | |exact Hheap].
      * intros j u mu Hj Hu. destruct (decide (i = j)) as [<-|Hne].
        -- rewrite list_lookup_insert_eq in Hj by exact Hlt.
           injection Hj as <-. simpl in Hu. injection Hu as <-. apply (Hwf _ _ Hk).
        -- apply (Hothers _ _ _ _ Hj Hne Hu).
      * intros mu. pose proof (holders_insert mu (Locks.Loaded k mu1) _ _ _ Hi) as Hh.
        simpl in Hh. rewrite Hcount. lia.
    + split; unfold store_wf; simpl; [| | |exact Hheap].
      * intros k' mu. destruct (decide (k = k')) as [<-|Hne].
        -- rewrite lookup_insert_eq. intros H. injection H as <-. exact Hp.
        -- rewrite lookup_insert_ne by exact Hne. apply Hwf.
      * intros j u mu Hj Hu. destruct (decide (i = j)) as [<-|Hne].
        -- rewrite list_lookup_insert_eq in Hj by exact Hlt.
           injection Hj as <-. simpl in Hu. injection Hu as <-. exact Hp.
        -- apply (Hothers _ _ _ _ Hj Hne Hu).
      * intros mu. pose proof (holders_insert mu (Locks.Loaded k p) _ _ _ Hi) as Hh.
        simpl in Hh. unfold readers in *. simpl. rewrite Hcount. lia.
  - (* RLock *)
    assert (Hmu : mu0 < length (rwmutexes c.1)) by (eapply Hhand; [exact Hi | reflexivity]).
    split; unfold store_wf; simpl.
    + intros k' mu H. rewrite length_alter. apply (Hwf _ _ H).
    + intros j u mu Hj Hu. rewrite length_alter.
      destruct (decide (i = j)) as [<-|Hne].
      * rewrite list_lookup_insert_eq in Hj by exact Hlt.
        injection Hj as <-. simpl in Hu. injection Hu as <-. exact Hmu.
      * apply (Hothers _ _ _ _ Hj Hne Hu).
    + intros mu. pose proof (holders_insert mu (Locks.Locked k mu0) _ _ _ Hi) as Hh.
      simpl in Hh. destruct (decide (mu0 = mu)) as [<-|Hne].
      * rewrite readers_RLock by exact Hmu. rewrite Hcount. lia.
      * rewrite readers_RLock_other by exact Hne. rewrite Hcount. lia.
    + rewrite length_alter. exact Hheap.
  - (* RUnlock *)
    assert (Hmu : mu0 < length (rwmutexes c.1)) by (eapply Hhand; [exact Hi | reflexivity]).
    split; unfold store_wf; simpl.
    + intros k' mu H. rewrite length_alter. apply (Hwf _ _ H).
    + intros j u mu Hj Hu. rewrite length_alter.
      destruct (decide (i = j)) as [<-|Hne].
      * rewrite list_lookup_insert_eq in Hj by exact Hlt.
        injection Hj as <-. simpl in Hu. injection Hu as <-. exact Hmu.
      * apply (Hothers _ _ _ _ Hj Hne Hu).
    + intros mu. pose proof (holders_insert mu (Locks.Done k mu0) _ _ _ Hi) as Hh.
      simpl in Hh. destruct (decide (mu0 = mu)) as [<-|Hne].
      * rewrite readers_RUnlock. rewrite Hcount. lia.
      * rewrite readers_RUnlock_other by exact Hne. rewrite Hcount. lia.
    + rewrite length_alter. exact Hheap.
  - (* finished *)
    rewrite list_insert_id by exact Hi. split; assumption.
Qed.

Lemma Balanced_run s0 sched : ∀ c, Balanced s0 c → Balanced s0 (Locks.run sched c).
Proof.
  induction sched as [|i sched IH]; intros c H; simpl; [exact H|].
  apply IH, Balanced_step, H.
Qed.

(** X12.  Threads running [get] or [set], started on a store whose table
    points at allocated mutexes and interleaved by any schedule: at every
    moment the number of read locks held on a mutex is the number it had at
    the start plus the number of threads that are inside their locked
    section on it.  Once every thread has been scheduled four times all
    read counts are back to their initial values: no operation leaves a
    lock held.  The table keeps pointing at allocated mutexes. *)
Theorem read_locks_held_equal_threads_inside :
  ∀ (s0 : store) (ks : list string) (sched : list nat),
    store_wf s0 →
    let c := Locks.run sched (s0, Locks.Start <$> ks) in
    (∀ mu, readers mu c.1 = readers mu s0 + holders mu c.2)
    ∧ ((∀ i, i < length ks → 4 ≤ Locks.turns i sched) →
       ∀ mu, readers mu c.1 = readers mu s0)
    ∧ store_wf c.1.
Proof.
  intros s0 ks sched Hwf c.
  pose proof (Balanced_run s0 sched _ (Balanced_init s0 ks Hwf)) as B. fold c in B.
  destruct B as [Hwf' _ Hcount _].
  split; [exact Hcount|]. split; [|exact Hwf'].
  intros Hall mu. rewrite Hcount.
  rewrite holders_none; [lia|].
  intros i t Hi.
  pose proof (Inv_run s0 ks sched _ (Inv_init s0 ks)) as I. fold c in I.
  pose proof (Locks.inv_keys _ _ _ I _ _ Hi) as Hk.
  assert (Hlt : i < length ks) by (eapply lookup_lt_Some; exact Hk).
  assert (H0 : (s0, Locks.Start <$> ks).2 !! i = Some (Locks.Start (Locks.key_of t)))
    by (simpl; rewrite list_lookup_fmap, Hk; reflexivity).
  destruct (run_phase i sched _ _ H0) as (t' & Ht' & Hp). fold c in Ht'.
  rewrite Hi in Ht'. injection Ht' as <-.
  cbn [Locks.phase] in Hp. pose proof (Hall i Hlt).
  assert (Hp4 : Locks.phase t = 4) by lia.
  destruct (phase_done _ Hp4) as [mu' ->]. reflexivity.
Qed.

(** X12, an instance: two operations on the same new key, both inside
    their locked section: the one mutex the table kept has two readers. *)
Lemma two_readers_witness :
  let c := Locks.run [0; 0; 0; 1; 1; 1]
             (newStore "cache", Locks.Start <$> ["k.webp"; "k.webp"]) in
  m c.1 !! "k.webp" = Some 0 ∧ readers 0 c.1 = 0 + 2 ∧ readers 1 c.1 = 0 + 0.
Proof.
  intros c.
  destruct (read_locks_held_equal_threads_inside (newStore "cache")
              ["k.webp"; "k.webp"] [0; 0; 0; 1; 1; 1]) as (H & _ & _).
  { intros k mu Hk. discriminate Hk. }
  split; [vm_compute; reflexivity|]. split; [exact (H 0) | exact (H 1)].
Defined.
